(** * process_sports.py: translate, summarise and export team records

    A shallow embedding of [scripts/process_sports.py] and the properties of
    its translator, summariser, orchestrator and exporter.

    Python strings are sequences of Unicode code points; they are modelled as
    lists of code points.  External libraries (googletrans, the OpenAI client,
    sumy's TextRank, requests, pandas, os.makedirs, time.sleep) are oracles
    over an abstract world; every call to one of them and every [print] is
    recorded in a trace.  The exceptions of the model are the ones an
    [except Exception] clause catches. *)

From Stdlib Require Import ZArith QArith Lia Ascii String.
From stdpp Require Import base tactics option list strings pretty gmap.

Local Open Scope Z_scope.

(** ** Python strings *)

Module PyStr.

Definition pystr := list N.

(** A string literal of the source whose characters are all ASCII. *)
Definition lit (s : string) : pystr :=
  (λ a, N_of_ascii a) <$> String.list_ascii_of_string s.

Arguments lit : simpl never.

(** [str.isspace] on one code point: the code points that CPython's
    [Py_UNICODE_ISSPACE] accepts, which [str.split()] and [str.strip()]
    treat as separators. *)
Definition isspace (c : N) : bool :=
  ((9 <=? c) && (c <=? 13) ||
   (28 <=? c) && (c <=? 32) ||
   (c =? 133) || (c =? 160) || (c =? 5760) ||
   (8192 <=? c) && (c <=? 8202) ||
   (c =? 8232) || (c =? 8233) || (c =? 8239) || (c =? 8287) ||
   (c =? 12288))%N.

(** [s.lstrip()], [s.rstrip()] and [s.strip()]. *)
Fixpoint lstrip (s : pystr) : pystr :=
  match s with
  | c :: s' => if isspace c then lstrip s' else s
  | [] => []
  end.

Definition rstrip (s : pystr) : pystr := reverse (lstrip (reverse s)).

Definition strip (s : pystr) : pystr := rstrip (lstrip s).

(** [cons_word w ws] puts a finished word in front of [ws]; between two
    adjacent separators the word is empty and nothing is added. *)
Definition cons_word (w : pystr) (ws : list pystr) : list pystr :=
  match w with
  | [] => ws
  | _ :: _ => w :: ws
  end.

(** One pass over the string: the word that starts at the current position
    (empty when the position holds a separator or the end) and the words
    after it. *)
Fixpoint split_from (s : pystr) : pystr * list pystr :=
  match s with
  | [] => ([], [])
  | c :: s' =>
      let '(w, ws) := split_from s' in
      if isspace c then ([], cons_word w ws) else (c :: w, ws)
  end.

(** [s.split()]: the maximal runs of non-whitespace code points. *)
Definition split (s : pystr) : list pystr :=
  let '(w, ws) := split_from s in cons_word w ws.

(** [sep.join(ws)]. *)
Fixpoint join (sep : pystr) (ws : list pystr) : pystr :=
  match ws with
  | [] => []
  | [w] => w
  | w :: ws' => w ++ sep ++ join sep ws'
  end.

(** [l[:n]] for a Python integer [n]: a negative bound counts from the
    end of the list. *)
Definition slice_to {A} (l : list A) (n : Z) : list A :=
  if 0 <=? n then take (Z.to_nat n) l
  else take (length l - Z.to_nat (- n)) l.

(** [len(l)] as a Python integer. *)
Definition len {A} (l : list A) : Z := Z.of_nat (length l).

(** [str(n)] for a Python integer. *)
Definition str_of_int (n : Z) : pystr := lit (pretty n).

(** [needle in s] on strings. *)
Fixpoint is_prefix (p s : pystr) : bool :=
  match p, s with
  | [], _ => true
  | a :: p', b :: s' => (a =? b)%N && is_prefix p' s'
  | _ :: _, [] => false
  end.

Fixpoint contains (needle s : pystr) : bool :=
  is_prefix needle s ||
  match s with
  | [] => false
  | _ :: s' => contains needle s'
  end.

(** [s.endswith(suffix)]. *)
Definition endswith (s suffix : pystr) : bool :=
  is_prefix (reverse suffix) (reverse s).

(** A word as [split] produces them: not empty, no whitespace inside. *)
Definition is_word (w : pystr) : Prop :=
  w ≠ [] ∧ Forall (λ c, isspace c = false) w.

End PyStr.
Import PyStr.

(** ** JSON values, exceptions and the machine state *)

Module Model.

(** What [r.json()] can return.  An object is a Python [dict] keyed by
    strings; a float is given by the rational it denotes. *)
#[warnings="-register-all"]
Inductive json :=
| JNull
| JBool (b : bool)
| JInt (z : Z)
| JFloat (q : Q)
| JStr (s : pystr)
| JArr (items : list json)
| JObj (fields : gmap pystr json).

(** Python truthiness, as [not v] and [if v] use it. *)
Definition truthy (v : json) : bool :=
  match v with
  | JNull => false
  | JBool b => b
  | JInt z => negb (z =? 0)
  | JFloat q => negb (Qeq_bool q 0)
  | JStr s => negb (bool_decide (s = []))
  | JArr items => negb (bool_decide (items = []))
  | JObj fields => negb (bool_decide (fields = ∅))
  end.

(** An exception that [except Exception] catches: its class and [str(e)]. *)
Record exn := Exception { exn_class : string; exn_str : pystr }.

Inductive outcome (A : Type) :=
| Ret (a : A)
| Raise (e : exn).
Arguments Ret {A} a.
Arguments Raise {A} e.

(** The dict appended to [results] for one team. *)
Record TeamRecord := {
  Equipo : json;
  Deporte : json;
  Liga : json;
  Ano_de_fundacion : json;
  Estadio : json;
  Descripcion_es : pystr;
  Resumen : pystr
}.

(** A request to [ai_client.chat.completions.create]. *)
Record chat_request := {
  model : pystr;
  messages : list (pystr * pystr);   (* role, content *)
  max_tokens : Z;
  temperature : Q
}.

(** [resp.choices]: for each choice its [message.content], [None] when the
    completion carries no text. *)
Definition chat_response := list (option pystr).

(** The response object of [requests.get]: what [r.raise_for_status()] and
    [r.json()] do on it. *)
Record response := {
  raise_for_status : outcome unit;
  json_body : outcome json
}.

(** Every observable action: a line printed, or a call to a library. *)
Inductive event :=
| print_line (line : pystr)
| call_translate (text dest : pystr)
| call_chat (req : chat_request)
| call_textrank (text : pystr) (sentences_count : Z)
| call_get (url : pystr) (timeout : Z)
| call_sleep (seconds : Q)
| call_makedirs (path : pystr)
| call_to_csv (path : pystr) (rows : list TeamRecord).

(** The module-level capability flags (lines 29-48 of the script). *)
Inductive OpenAI := OpenAI_client (api_key : pystr).

Record Globals := {
  _translator_available : bool;
  USE_OPENAI : bool;
  ai_client : option OpenAI
}.

(** The libraries the script calls, as functions of an abstract world. *)
Record Backends (World : Type) := {
  (* Translator().translate(text, dest=dest).text *)
  googletrans_translate : pystr → pystr → World → outcome pystr * World;
  (* ai_client.chat.completions.create(...).choices *)
  chat_completions_create : chat_request → World → outcome chat_response * World;
  (* [str(s) for s in TextRankSummarizer()(PlaintextParser.from_string(
       text, Tokenizer("spanish")).document, sentences_count)] *)
  text_rank : pystr → Z → World → outcome (list pystr) * World;
  (* requests.get(url, timeout=timeout) *)
  requests_get : pystr → Z → World → outcome response * World;
  (* requests.utils.requote_uri: it quotes the name for the URL and, like
     urllib's quote, raises UnicodeEncodeError on a name it cannot encode
     (a lone surrogate) *)
  requote_uri : pystr → outcome pystr;
  (* time.sleep *)
  time_sleep : Q → World → outcome unit * World;
  (* os.makedirs(path, exist_ok=True) *)
  os_makedirs : pystr → World → outcome unit * World;
  (* pd.DataFrame(items).to_csv(path, index=False, encoding="utf-8-sig") *)
  to_csv : pystr → list TeamRecord → World → outcome unit * World;
  (* the builtin str() on a float, a list or a dict *)
  str_of_other : json → pystr;
  (* str.lower *)
  lower : pystr → pystr
}.
Arguments googletrans_translate {World}.
Arguments chat_completions_create {World}.
Arguments text_rank {World}.
Arguments requests_get {World}.
Arguments requote_uri {World}.
Arguments time_sleep {World}.
Arguments os_makedirs {World}.
Arguments to_csv {World}.
Arguments str_of_other {World}.
Arguments lower {World}.

(** The machine state: the world the libraries act on, the trace of
    events so far, and the list object bound to [results] in
    [process_teams]. *)
Record state (World : Type) := {
  world : World;
  trace : list event;
  results : list TeamRecord
}.
Arguments world {World}.
Arguments trace {World}.
Arguments results {World}.

End Model.
Import Model.

(** ** Computations: state, trace and exceptions *)

Module Monad.
Section Monad.
Context {World : Type}.

(** A computation runs from a state to an outcome and a state.  A raised
    exception keeps the state reached so far: what was printed, called or
    appended before the raise stays. *)
Definition M (A : Type) : Type := state World → outcome A * state World.

Definition ret {A} (a : A) : M A := λ st, (Ret a, st).

Definition raise {A} (e : exn) : M A := λ st, (Raise e, st).

Definition bind {A B} (c : M A) (k : A → M B) : M B :=
  λ st, match c st with
        | (Ret a, st') => k a st'
        | (Raise e, st') => (Raise e, st')
        end.

(** [try: c  except Exception as e: h e]. *)
Definition try_except {A} (c : M A) (h : exn → M A) : M A :=
  λ st, match c st with
        | (Ret a, st') => (Ret a, st')
        | (Raise e, st') => h e st'
        end.

(** An outcome that is already known (a method of a response object). *)
Definition from_outcome {A} (o : outcome A) : M A := λ st, (o, st).

Definition emit (ev : event) : M unit :=
  λ st, (Ret tt, {| world := world st; trace := trace st ++ [ev];
                    results := results st |}).

(** A library call: recorded in the trace, then run on the world. *)
Definition call {A} (ev : event) (f : World → outcome A * World) : M A :=
  λ st, let '(o, w) := f (world st) in
        (o, {| world := w; trace := trace st ++ [ev];
               results := results st |}).

Definition print (line : pystr) : M unit := emit (print_line line).

(** [results = []], [results.append(r)] and reading [results]. *)
Definition set_results (rs : list TeamRecord) : M unit :=
  λ st, (Ret tt, {| world := world st; trace := trace st; results := rs |}).

Definition results_append (r : TeamRecord) : M unit :=
  λ st, (Ret tt, {| world := world st; trace := trace st;
                    results := results st ++ [r] |}).

Definition get_results : M (list TeamRecord) := λ st, (Ret (results st), st).

(** [for x in xs: body x]. *)
Fixpoint for_each {A} (xs : list A) (body : A → M unit) : M unit :=
  match xs with
  | [] => ret tt
  | x :: xs' => bind (body x) (λ _, for_each xs' body)
  end.

End Monad.
End Monad.
Import Monad.

Notation "'let*' x ':=' c 'in' k" := (bind c (λ x, k))
  (at level 10, x name, c at level 100, k at level 200).
Notation "c1 '>>' c2" := (bind c1 (λ _, c2))
  (at level 100, c2 at level 200, right associativity).

(** ** The script *)

Module Script.

(** [type(v).__name__], for the messages of the interpreter's errors. *)
Definition type_name (v : json) : pystr :=
  match v with
  | JNull => lit "NoneType"
  | JBool _ => lit "bool"
  | JInt _ => lit "int"
  | JFloat _ => lit "float"
  | JStr _ => lit "str"
  | JArr _ => lit "list"
  | JObj _ => lit "dict"
  end.

Definition no_attribute (v : json) (attr : string) : exn :=
  Exception "AttributeError"
    (lit "'" ++ type_name v ++ lit "' object has no attribute '" ++ lit attr ++ lit "'").

(** [v.get(key, dflt)]: only a dict has the method. *)
Definition dict_get (v : json) (key : pystr) (dflt : json) : outcome json :=
  match v with
  | JObj fields => Ret (default dflt (fields !! key))
  | _ => Raise (no_attribute v "get")
  end.

(** [v[0]]. *)
Definition getitem0 (v : json) : outcome json :=
  match v with
  | JArr (x :: _) => Ret x
  | JArr [] => Raise (Exception "IndexError" (lit "list index out of range"))
  | JStr (c :: _) => Ret (JStr [c])
  | JStr [] => Raise (Exception "IndexError" (lit "string index out of range"))
  | JObj _ => Raise (Exception "KeyError" (lit "0"))
  | _ => Raise (Exception "TypeError"
                  (lit "'" ++ type_name v ++ lit "' object is not subscriptable"))
  end.

(** [v.strip()]: only a string has the method. *)
Definition json_strip (v : json) : outcome pystr :=
  match v with
  | JStr s => Ret (strip s)
  | _ => Raise (no_attribute v "strip")
  end.

(** [os.path.dirname(path)] (posixpath). *)
Definition slash : N := 47%N.

Fixpoint drop_while {A} (f : A → bool) (l : list A) : list A :=
  match l with
  | x :: l' => if f x then drop_while f l' else l
  | [] => []
  end.

Definition dirname (path : pystr) : pystr :=
  let head := reverse (drop_while (λ c, negb (c =? slash)%N) (reverse path)) in
  if negb (bool_decide (head = [])) && negb (forallb (λ c, (c =? slash)%N) head)
  then reverse (drop_while (λ c, (c =? slash)%N) (reverse head))
  else head.

Definition NO_SUMMARY : pystr := lit "Resumen no disponible".
Definition ELLIPSIS : pystr := lit "...".

Section Script.
Context {World : Type} (B : Backends World) (G : Globals).

(** [str(v)], as an f-string or [print] renders a value. *)
Definition str_of (v : json) : pystr :=
  match v with
  | JStr s => s
  | JNull => lit "None"
  | JBool true => lit "True"
  | JBool false => lit "False"
  | JInt z => str_of_int z
  | _ => str_of_other B v
  end.

(** Lines 52-68. *)
Definition summarise_text_rank (text : pystr) (sentences_count word_limit : Z)
  : M (World := World) pystr :=
  if bool_decide (text = []) || bool_decide (strip text = []) then
    ret NO_SUMMARY
  else
    try_except
      (let* summary_sentences :=
         call (call_textrank text sentences_count)
              (text_rank B text sentences_count) in
       let summary_text := strip (join (lit " ") summary_sentences) in
       let words := split summary_text in
       if len words >? word_limit then
         ret (join (lit " ") (slice_to words word_limit) ++ ELLIPSIS)
       else
         ret summary_text)
      (λ e, print (lit "TextRank error: " ++ exn_str e) >>
            ret NO_SUMMARY).

(** The two messages of the request of lines 77-86. *)
Definition summary_messages (text : pystr) (word_limit : Z) : list (pystr * pystr) :=
  [ (lit "system",
     lit "You are an assistant that generates concise summaries in Spanish. "
     ++ lit "Return only the summary text, without commentary.");
    (lit "user",
     lit "Resume el siguiente texto en castellano en un m" ++ [225%N]
     ++ lit "ximo de " ++ str_of_int word_limit ++ lit " palabras. "
     ++ lit "Devu" ++ [233%N] ++ lit "lvelo solo como texto, sin t" ++ [237%N]
     ++ lit "tulos ni notas:" ++ [10%N; 10%N] ++ text) ].

(** The arguments of the call of lines 88-93. *)
Definition summary_request (text : pystr) (word_limit : Z) : chat_request :=
  {| model := lit "gpt-3.5-turbo";
     messages := summary_messages text word_limit;
     max_tokens := 200;
     temperature := (2 # 10)%Q |}.

(** [resp.choices[0].message.content.strip()]. *)
Definition first_content_stripped (choices : chat_response) : outcome pystr :=
  match choices with
  | [] => Raise (Exception "IndexError" (lit "list index out of range"))
  | None :: _ => Raise (no_attribute JNull "strip")
  | Some content :: _ => Ret (strip content)
  end.

(** Lines 70-107. *)
Definition summarise_with_ai (text : pystr) (word_limit : Z)
  : M (World := World) (option pystr) :=
  if negb (USE_OPENAI G) || bool_decide (ai_client G = None) then ret None
  else if bool_decide (text = []) || bool_decide (strip text = []) then ret None
  else
    try_except
      (let req := summary_request text word_limit in
       let* resp := call (call_chat req) (chat_completions_create B req) in
       let* summary := from_outcome (first_content_stripped resp) in
       let words := split summary in
       if len words >? word_limit then
         ret (Some (join (lit " ") (slice_to words word_limit) ++ ELLIPSIS))
       else
         ret (Some summary))
      (λ e,
         let err_str := lower B (exn_str e) in
         (if contains (lit "quota") err_str
             || contains (lit "insufficient_quota") err_str
             || contains (lit "429") err_str
          then print (lit "OpenAI error (quota/429): " ++ exn_str e)
          else print (lit "OpenAI call failed: " ++ exn_str e)) >>
         ret None).

(** The two messages of the request of lines 124-131. *)
Definition translate_messages (text : pystr) : list (pystr * pystr) :=
  [ (lit "system",
     lit "You are a translation assistant. Translate the provided English text to Spanish only.");
    (lit "user",
     lit "Traduce al espa" ++ [241%N] ++ lit "ol el siguiente texto (devuelve solo la traducci"
     ++ [243%N] ++ lit "n):" ++ [10%N; 10%N] ++ text) ].

(** The arguments of the call of lines 132-137. *)
Definition translation_request (text : pystr) : chat_request :=
  {| model := lit "gpt-3.5-turbo";
     messages := translate_messages text;
     max_tokens := 400;
     temperature := 0%Q |}.

(** Lines 109-143.  A failed attempt falls out of its [try] and the next
    [if] is reached. *)
Definition translate_text (text dest : pystr) : M (World := World) pystr :=
  if bool_decide (text = []) then ret []
  else
    let* translated :=
      (if _translator_available G then
         try_except
           (let* result_text :=
              call (call_translate text dest) (googletrans_translate B text dest) in
            ret (Some result_text))
           (λ e, print (lit "googletrans failed: " ++ exn_str e) >> ret None)
       else ret None) in
    match translated with
    | Some result_text => ret result_text
    | None =>
        let* answered :=
          (if USE_OPENAI G && negb (bool_decide (ai_client G = None)) then
             try_except
               (let req := translation_request text in
                let* resp := call (call_chat req) (chat_completions_create B req) in
                let* content := from_outcome (first_content_stripped resp) in
                ret (Some content))
               (λ e, print (lit "OpenAI translate failed: " ++ exn_str e) >> ret None)
           else ret None) in
        match answered with
        | Some content => ret content
        | None =>
            print (lit "No translation available, returning original English text.") >>
            ret text
        end
    end.

(** Lines 173-181 of [process_teams]: the summary of a description, by
    the AI when it is enabled and answers, by TextRank otherwise.  The
    script passes [word_limit=50] to both; it is a parameter here. *)
Definition summarise (name : json) (text : pystr) (word_limit : Z)
  : M (World := World) pystr :=
  let* resumen :=
    (if USE_OPENAI G then
       let* resumen := summarise_with_ai text word_limit in
       match resumen with
       | None =>
           print (lit "Falling back to TextRank for team: " ++ str_of name) >>
           ret None
       | Some _ => ret resumen
       end
     else ret None) in
  match resumen with
  | None => summarise_text_rank text 4 word_limit
  | Some r => ret r
  end.

(** Line 151: the URL of the lookup, for a name that has been quoted. *)
Definition search_url (base_url quoted : pystr) : pystr :=
  base_url ++ lit "/searchteams.php?t=" ++ quoted.

(** The body of the loop of [process_teams] (lines 150-197) for one
    team.  [continue] ends the iteration: the branch returns. *)
Definition process_team (base_url : pystr) (delay_between_calls : Q) (team : pystr)
  : M (World := World) unit :=
  try_except
    (let* quoted := from_outcome (requote_uri B team) in
     let* r := call (call_get (search_url base_url quoted) 10)
                    (requests_get B (search_url base_url quoted) 10) in
     from_outcome (raise_for_status r) >>
     let* data := from_outcome (json_body r) in
     let* teams_value :=
       (if truthy data then from_outcome (dict_get data (lit "teams") JNull)
        else ret JNull) in
     if negb (truthy data) || negb (truthy teams_value) then
       print (lit "No data for team '" ++ team ++ lit "'. Skipping.")
     else
       let* team_info := from_outcome (getitem0 teams_value) in
       let* name := from_outcome (dict_get team_info (lit "strTeam") (JStr (lit "N/A"))) in
       let* sport := from_outcome (dict_get team_info (lit "strSport") (JStr (lit "N/A"))) in
       let* league := from_outcome (dict_get team_info (lit "strLeague") (JStr (lit "N/A"))) in
       let* year := from_outcome (dict_get team_info (lit "intFormedYear") (JStr (lit "N/A"))) in
       let* stadium := from_outcome (dict_get team_info (lit "strStadium") (JStr (lit "N/A"))) in
       let* description_en := from_outcome (dict_get team_info (lit "strDescriptionEN") JNull) in
       let* stripped :=
         (if truthy description_en then from_outcome (json_strip description_en)
          else ret []) in
       if negb (truthy description_en) || bool_decide (stripped = []) then
         print (lit "Team '" ++ str_of name ++ lit "' has no English description. Skipping.")
       else
         let description_text :=
           match description_en with JStr s => s | _ => [] end in
         let* description_es := translate_text description_text (lit "es") in
         let* resumen := summarise name description_es 50 in
         results_append {| Equipo := name;
                           Deporte := sport;
                           Liga := league;
                           Ano_de_fundacion := year;
                           Estadio := stadium;
                           Descripcion_es := description_es;
                           Resumen := resumen |} >>
         call (call_sleep delay_between_calls) (time_sleep B delay_between_calls))
    (λ e, print (lit "Error processing team '" ++ team ++ lit "': " ++ exn_str e)).

(** Lines 147-198. *)
Definition process_teams (teams : list pystr) (base_url : pystr) (delay_between_calls : Q)
  : M (World := World) (list TeamRecord) :=
  set_results [] >>
  for_each teams (process_team base_url delay_between_calls) >>
  get_results.

(** Lines 200-210. *)
Definition save_to_csv (items : list TeamRecord) (path : pystr) : M (World := World) unit :=
  if bool_decide (items = []) then
    print (lit "No rows to save.")
  else
    call (call_makedirs (dirname path)) (os_makedirs B (dirname path)) >>
    try_except
      (call (call_to_csv path items) (to_csv B path items) >>
       print (lit "Saved CSV to " ++ path ++ lit " (" ++ str_of_int (len items) ++ lit " rows)."))
      (λ e, print (lit "Error saving CSV: " ++ exn_str e)).

End Script.

(** The defaults of the signatures. *)
Definition default_base_url : pystr := lit "https://www.thesportsdb.com/api/v1/json/123".
Definition default_delay : Q := (1 # 2)%Q.
Definition default_path : pystr := lit "data/teams_list.csv".

(** Lines 216-218: the names the script processes. *)
Definition TEAMS : list pystr :=
  [ lit "Arsenal"; lit "Chelsea"; lit "Liverpool";
    lit "Manchester United"; lit "Manchester City" ].

(** Lines 214-222, the script run as a program, on a list of names: the
    script's own is [TEAMS], which line 215 invites to change. *)
Definition main {World : Type} (B : Backends World) (G : Globals) (teams : list pystr)
  : M (World := World) unit :=
  print (lit "OpenAI available: " ++ (if USE_OPENAI G then lit "True" else lit "False")) >>
  let* items := process_teams B G teams default_base_url default_delay in
  save_to_csv B items default_path.

(** Lines 29-48, the capability flags computed when the module is
    loaded.  [googletrans] is the outcome of the import of line 31, [getenv]
    the value of the variable OPENAI_API_KEY when it is set, and [new_client]
    the import of line 43 followed by [OpenAI(api_key=key)].  The result is
    the flags and what was printed. *)
Definition module_init (googletrans : outcome unit) (getenv : option pystr)
    (new_client : pystr → outcome OpenAI) : Globals * list event :=
  let translator_available :=
    match googletrans with Ret _ => true | Raise _ => false end in
  let OPENAI_API_KEY := strip (default [] getenv) in
  if negb (bool_decide (OPENAI_API_KEY = [])) then
    match new_client OPENAI_API_KEY with
    | Ret client =>
        ({| _translator_available := translator_available;
            USE_OPENAI := true;
            ai_client := Some client |}, [])
    | Raise e =>
        ({| _translator_available := translator_available;
            USE_OPENAI := false;
            ai_client := None |},
         [print_line (lit "OpenAI client could not be initialized: " ++ exn_str e)])
    end
  else
    ({| _translator_available := translator_available;
        USE_OPENAI := false;
        ai_client := None |}, []).

End Script.
Import Script.

(** ** Vocabulary of the properties *)

Module Spec.

Definition no_space (s : pystr) : Prop := Forall (λ c, isspace c = false) s.

(** Number of whitespace-separated words of a string. *)
Definition word_count (s : pystr) : Z := len (split s).

(** What lines 62-65 and 96-98 make of a candidate summary. *)
Definition cap_words (candidate : pystr) (word_limit : Z) : pystr :=
  if len (split candidate) >? word_limit then
    join (lit " ") (slice_to (split candidate) word_limit) ++ ELLIPSIS
  else candidate.

(** The summary the TextRank branch makes of the library's answer. *)
Definition text_rank_summary (answer : outcome (list pystr)) (wl : Z) : pystr :=
  match answer with
  | Ret sentences => cap_words (strip (join (lit " ") sentences)) wl
  | Raise _ => NO_SUMMARY
  end.

(** The summary the AI branch makes of the client's answer. *)
Definition ai_summary (answer : outcome chat_response) (wl : Z) : option pystr :=
  match answer with
  | Ret choices =>
      match first_content_stripped choices with
      | Ret summary => Some (cap_words summary wl)
      | Raise _ => None
      end
  | Raise _ => None
  end.

Definition NA : json := JStr (lit "N/A").

(** What the lookup must give for a record to be made: a response whose
    status is fine and whose body is an object, with under "teams" a list
    that starts with an object, the team, which has under
    "strDescriptionEN" a string that is not blank.  The result is the team
    object and its description. *)
Definition team_found (answer : outcome response) : option (gmap pystr json * pystr) :=
  match answer with
  | Ret r =>
      match raise_for_status r, json_body r with
      | Ret _, Ret (JObj data) =>
          match data !! lit "teams" with
          | Some (JArr (JObj team_info :: _)) =>
              match team_info !! lit "strDescriptionEN" with
              | Some (JStr description_en) =>
                  if bool_decide (strip description_en = []) then None
                  else Some (team_info, description_en)
              | _ => None
              end
          | _ => None
          end
      | _, _ => None
      end
  | Raise _ => None
  end.

(** The five literal fields of a record are those of the team object. *)
Definition fields_from (team_info : gmap pystr json) (r : TeamRecord) : Prop :=
  Equipo r = default NA (team_info !! lit "strTeam")
  ∧ Deporte r = default NA (team_info !! lit "strSport")
  ∧ Liga r = default NA (team_info !! lit "strLeague")
  ∧ Ano_de_fundacion r = default NA (team_info !! lit "intFormedYear")
  ∧ Estadio r = default NA (team_info !! lit "strStadium").

(** The kinds of events. *)
Inductive kind :=
| KPrint | KTranslate | KChat | KTextRank | KGet | KSleep | KMakedirs | KToCsv.

Definition kind_of (ev : event) : kind :=
  match ev with
  | print_line _ => KPrint
  | call_translate _ _ => KTranslate
  | call_chat _ => KChat
  | call_textrank _ _ => KTextRank
  | call_get _ _ => KGet
  | call_sleep _ => KSleep
  | call_makedirs _ => KMakedirs
  | call_to_csv _ _ => KToCsv
  end.

Definition kind_eqb (k1 k2 : kind) : bool :=
  match k1, k2 with
  | KPrint, KPrint | KTranslate, KTranslate | KChat, KChat
  | KTextRank, KTextRank | KGet, KGet | KSleep, KSleep
  | KMakedirs, KMakedirs | KToCsv, KToCsv => true
  | _, _ => false
  end.

(** The events of a trace that are of kind [k]. *)
Fixpoint of_kind (k : kind) (evs : list event) : list event :=
  match evs with
  | [] => []
  | ev :: evs' =>
      if kind_eqb (kind_of ev) k then ev :: of_kind k evs' else of_kind k evs'
  end.

(** Every event of [evs] has one of the kinds [ks]. *)
Definition only (ks : list kind) (evs : list event) : Prop :=
  Forall (λ ev, existsb (kind_eqb (kind_of ev)) ks = true) evs.

(** [st'] is [st] after the events [evs]. *)
Definition after_events {World} (st : state World) (evs : list event)
    (st' : state World) : Prop :=
  trace st' = trace st ++ evs.

(** The summary of a record is the fallback literal or a text cut at
    fifty words. *)
Definition capped_summary (r : TeamRecord) : Prop :=
  Resumen r = NO_SUMMARY ∨ ∃ c, Resumen r = cap_words c 50.

Section Spec.
Context {World : Type} (B : Backends World) (G : Globals).
Context (base_url : pystr) (delay_between_calls : Q).

Implicit Types (text dest team : pystr) (st : state World) (w : World).

(** The AI backend is configured: both tests of line 72 pass. *)
Definition ai_enabled : Prop := USE_OPENAI G = true ∧ ai_client G ≠ None.

(** The local capability is unavailable, or its attempt raises. *)
Definition local_translation_fails text dest w : Prop :=
  _translator_available G = false
  ∨ ∃ e, (googletrans_translate B text dest w).1 = Raise e.

(** The world in which the AI is asked: after the local attempt, when
    there was one. *)
Definition world_after_local text dest w : World :=
  if _translator_available G then (googletrans_translate B text dest w).2 else w.

(** The AI backend is unconfigured, or its attempt raises: in the call,
    or while reading the text of the first choice. *)
Definition ai_translation_fails text w : Prop :=
  ¬ ai_enabled
  ∨ (∃ e, (chat_completions_create B (translation_request text) w).1 = Raise e)
  ∨ (∃ choices e,
       (chat_completions_create B (translation_request text) w).1 = Ret choices
       ∧ first_content_stripped choices = Raise e).

(** The answer of the API to the lookup of [team] in world [w]; when the
    name cannot be quoted into the URL there is no request, and the answer
    is that exception. *)
Definition lookup_answer team w : outcome response :=
  match requote_uri B team with
  | Ret quoted => (requests_get B (search_url base_url quoted) 10 w).1
  | Raise e => Raise e
  end.

(** The reasons for which the script skips a team: the lookup fails
    (the request raises, or the name cannot be quoted into the URL), the
    status is an error, the body is empty, it names no team, or the team has
    no English description (absent, null, empty or blank). *)
Inductive skipped team w : Prop :=
| http_failure e :
    lookup_answer team w = Raise e → skipped team w
| bad_status r e :
    lookup_answer team w = Ret r → raise_for_status r = Raise e → skipped team w
| no_data r data :
    lookup_answer team w = Ret r → json_body r = Ret data → truthy data = false →
    skipped team w
| no_team_match r data :
    lookup_answer team w = Ret r → json_body r = Ret (JObj data) →
    truthy (default JNull (data !! lit "teams")) = false →
    skipped team w
| no_description r data team_info others :
    lookup_answer team w = Ret r → json_body r = Ret (JObj data) →
    data !! lit "teams" = Some (JArr (JObj team_info :: others)) →
    (default JNull (team_info !! lit "strDescriptionEN") = JNull
     ∨ ∃ s, team_info !! lit "strDescriptionEN" = Some (JStr s) ∧ strip s = []) →
    skipped team w.

(** How the loop ran: for each team, in order, whether its iteration
    found it and appended a record, or skipped it. *)
Inductive loop_run :
  list pystr → state World → list (pystr * TeamRecord) → state World → Prop :=
| loop_done st : loop_run [] st [] st
| loop_skip team teams st st1 kept st' :
    process_team B G base_url delay_between_calls team st = (Ret tt, st1) →
    team_found (lookup_answer team (world st)) = None →
    results st1 = results st →
    loop_run teams st1 kept st' →
    loop_run (team :: teams) st kept st'
| loop_keep team teams st st1 team_info description_en r kept st' :
    process_team B G base_url delay_between_calls team st = (Ret tt, st1) →
    team_found (lookup_answer team (world st)) = Some (team_info, description_en) →
    results st1 = results st ++ [r] →
    fields_from team_info r →
    loop_run teams st1 kept st' →
    loop_run (team :: teams) st ((team, r) :: kept) st'.

(** [process_teams] starts from an empty list of results. *)
Definition fresh st : state World :=
  {| world := world st; trace := trace st; results := [] |}.

(** The request of the iteration for [team]: one, to the URL of the
    quoted name, or none when the name cannot be quoted. *)
Definition request_of team : list event :=
  match requote_uri B team with
  | Ret quoted => [call_get (search_url base_url quoted) 10]
  | Raise _ => []
  end.

(** The state in which [main] calls [process_teams]: after the line
    printed on line 220. *)
Definition announced st : state World :=
  {| world := world st;
     trace := trace st ++ [print_line (lit "OpenAI available: "
                             ++ (if USE_OPENAI G then lit "True" else lit "False"))];
     results := results st |}.

End Spec.
End Spec.
Import Spec.

(** ** Concrete backends, for evaluating the script *)

Module Scripted.

(** Backends over a one-point world whose answers are fixed in advance;
    the response of the sports API depends on the URL asked for, and
    [os.makedirs] on the directory. *)
Definition backends
    (translated : outcome pystr) (chat : outcome chat_response)
    (ranked : outcome (list pystr)) (fetched : pystr → outcome response)
    (slept : outcome unit) (made : pystr → outcome unit)
    (written : outcome unit) : Backends unit :=
  {| googletrans_translate := λ _ _ w, (translated, w);
     chat_completions_create := λ _ w, (chat, w);
     text_rank := λ _ _ w, (ranked, w);
     requests_get := λ url _ w, (fetched url, w);
     requote_uri := λ team, Ret team;
     time_sleep := λ _ w, (slept, w);
     os_makedirs := λ path w, (made path, w);
     to_csv := λ _ _ w, (written, w);
     str_of_other := λ _, lit "?";
     lower := λ s, s |}.

Definition start : state unit := {| world := tt; trace := []; results := [] |}.

Definition unreachable : exn := Exception "ConnectionError" (lit "network is unreachable").

(** No optional capability: googletrans missing, no API key. *)
Definition no_capability : Globals :=
  {| _translator_available := false; USE_OPENAI := false; ai_client := None |}.

(** Both capabilities present. *)
Definition full_capability : Globals :=
  {| _translator_available := true; USE_OPENAI := true;
     ai_client := Some (OpenAI_client (lit "sk-test")) |}.

(** googletrans is installed, there is no API key. *)
Definition translator_only : Globals :=
  {| _translator_available := true; USE_OPENAI := false; ai_client := None |}.

(** Everything external fails. *)
Definition offline : Backends unit :=
  backends (Raise unreachable) (Raise unreachable) (Raise unreachable)
           (λ _, Raise unreachable) (Ret tt) (λ _, Ret tt) (Ret tt).

(** TextRank answers with one short sentence. *)
Definition one_sentence : Backends unit :=
  backends (Raise unreachable) (Raise unreachable)
           (Ret [lit "Arsenal es un club."])
           (λ _, Raise unreachable) (Ret tt) (λ _, Ret tt) (Ret tt).

(** A text of sixty words. *)
Definition sixty_words : pystr := join (lit " ") (replicate 60 (lit "gol")).

(** The AI and TextRank both answer with sixty words. *)
Definition verbose : Backends unit :=
  backends (Ret (lit "El Arsenal es un club.")) (Ret [Some sixty_words])
           (Ret [sixty_words])
           (λ _, Raise unreachable) (Ret tt) (λ _, Ret tt) (Ret tt).

End Scripted.

(** ** Concrete answers of the sports API *)

Module Scenario.

Definition arsenal : gmap pystr json :=
  list_to_map
    [ (lit "strTeam", JStr (lit "Arsenal"));
      (lit "strSport", JStr (lit "Soccer"));
      (lit "strLeague", JStr (lit "English Premier League"));
      (lit "intFormedYear", JStr (lit "1886"));
      (lit "strStadium", JNull);
      (lit "strDescriptionEN", JStr (lit "Arsenal Football Club is a club.")) ].

(** The API knows Arsenal and answers [{"teams": null}] for any other name. *)
Definition api (url : pystr) : outcome response :=
  Ret {| raise_for_status := Ret tt;
         json_body :=
           Ret (JObj (list_to_map
                  [ (lit "teams",
                     if contains (lit "t=Arsenal") url then JArr [JObj arsenal]
                     else JNull) ])) |}.

(** [os.makedirs("")] raises, as it does in Python. *)
Definition makedirs (path : pystr) : outcome unit :=
  if bool_decide (path = []) then
    Raise (Exception "FileNotFoundError"
             (lit "[Errno 2] No such file or directory: ''"))
  else Ret tt.

Definition backends : Backends unit :=
  Scripted.backends (Ret (lit "El Arsenal es un club.")) (Raise Scripted.unreachable)
    (Ret [lit "El Arsenal es un club."]) api (Ret tt) makedirs (Ret tt).

(** A code point that UTF-8 cannot encode. *)
Definition is_surrogate (c : N) : bool := ((55296 <=? c) && (c <=? 57343))%N.

(** [requote_uri] as the library behaves on a name with a surrogate. *)
Definition requote (team : pystr) : outcome pystr :=
  if existsb is_surrogate team then
    Raise (Exception "UnicodeEncodeError" (lit "surrogates not allowed"))
  else Ret team.

(** The same backends with that [requote_uri]. *)
Definition strict_backends : Backends unit :=
  {| googletrans_translate := googletrans_translate backends;
     chat_completions_create := chat_completions_create backends;
     text_rank := text_rank backends;
     requests_get := requests_get backends;
     requote_uri := requote;
     time_sleep := time_sleep backends;
     os_makedirs := os_makedirs backends;
     to_csv := to_csv backends;
     str_of_other := str_of_other backends;
     lower := lower backends |}.

(** The API answers as [api] does, and every translation and summary
    backend raises. *)
Definition silent_backends : Backends unit :=
  Scripted.backends (Raise Scripted.unreachable) (Raise Scripted.unreachable)
    (Raise Scripted.unreachable) api (Ret tt) makedirs (Ret tt).

(** The record for Arsenal when nothing translates or summarises. *)
Definition arsenal_fallback_record : TeamRecord :=
  {| Equipo := JStr (lit "Arsenal");
     Deporte := JStr (lit "Soccer");
     Liga := JStr (lit "English Premier League");
     Ano_de_fundacion := JStr (lit "1886");
     Estadio := JNull;
     Descripcion_es := lit "Arsenal Football Club is a club.";
     Resumen := NO_SUMMARY |}.

Definition arsenal_record : TeamRecord :=
  {| Equipo := JStr (lit "Arsenal");
     Deporte := JStr (lit "Soccer");
     Liga := JStr (lit "English Premier League");
     Ano_de_fundacion := JStr (lit "1886");
     Estadio := JNull;
     Descripcion_es := lit "El Arsenal es un club.";
     Resumen := lit "El Arsenal es un club." |}.

End Scenario.

(** ** Words of a string *)

Section Words.

Implicit Types (s w : pystr) (ws : list pystr) (c : N).

Lemma cons_word_words w ws :
  no_space w → Forall is_word ws → Forall is_word (cons_word w ws).
Proof.
  intros Hw Hws. destruct w as [|c w]; simpl; [done|].
  constructor; [|done]. split; [done|exact Hw].
Qed.

Lemma split_from_words s :
  no_space (split_from s).1 ∧ Forall is_word (split_from s).2.
Proof.
  induction s as [|c s [IHw IHws]]; simpl.
  - split; constructor.
  - destruct (split_from s) as [w ws]; simpl in *.
    destruct (isspace c) eqn:Hc; simpl.
    + split; [constructor|]. by apply cons_word_words.
    + split; [|done]. by constructor.
Qed.

Lemma split_words s : Forall is_word (split s).
Proof.
  unfold split. pose proof (split_from_words s) as [Hw Hws].
  destruct (split_from s) as [w ws]. by apply cons_word_words.
Qed.

Lemma split_from_app_no_space w s :
  no_space w →
  split_from (w ++ s) = (w ++ (split_from s).1, (split_from s).2).
Proof.
  induction 1 as [|c w Hc _ IH]; simpl.
  - by destruct (split_from s).
  - rewrite IH, Hc. done.
Qed.

Lemma split_from_space c s :
  isspace c = true → split_from (c :: s) = ([], split s).
Proof.
  intros Hc. simpl. unfold split. destruct (split_from s) as [w ws].
  by rewrite Hc.
Qed.

Lemma split_word w : is_word w → split w = [w].
Proof.
  intros [Hne Hw]. unfold split.
  rewrite <- (app_nil_r w) at 1. rewrite split_from_app_no_space by done.
  simpl. rewrite app_nil_r. by destruct w.
Qed.

Lemma split_word_space_app w c s :
  is_word w → isspace c = true → split (w ++ c :: s) = w :: split s.
Proof.
  intros [Hne Hw] Hc. unfold split at 1.
  rewrite split_from_app_no_space by done.
  rewrite split_from_space by done. simpl. rewrite app_nil_r.
  by destruct w.
Qed.

(** Splitting undoes joining words with one space. *)
Lemma split_join ws : Forall is_word ws → split (join (lit " ") ws) = ws.
Proof.
  induction 1 as [|w ws Hw Hws IH]; [done|].
  destruct ws as [|w' ws].
  - by apply split_word.
  - change (join (lit " ") (w :: w' :: ws))
      with (w ++ 32%N :: join (lit " ") (w' :: ws)).
    rewrite split_word_space_app by done. by rewrite IH.
Qed.

Lemma join_snoc_app sep ws w s :
  join sep (ws ++ [w]) ++ s = join sep (ws ++ [w ++ s]).
Proof.
  induction ws as [|w' ws IH]; [done|].
  simpl. destruct ws as [|w'' ws]; simpl in *.
  - by rewrite <- !app_assoc.
  - rewrite <- IH. by rewrite <- !app_assoc.
Qed.

Lemma is_word_app_ellipsis w : is_word w → is_word (w ++ ELLIPSIS).
Proof.
  intros [Hne Hw]. split.
  - by destruct w.
  - apply Forall_app. split; [done|]. by repeat constructor.
Qed.

Lemma is_prefix_app p s : is_prefix p (p ++ s) = true.
Proof.
  induction p as [|c p IH]; [done|]. simpl. by rewrite N.eqb_refl, IH.
Qed.

Lemma endswith_app s suffix : endswith (s ++ suffix) suffix = true.
Proof. unfold endswith. rewrite reverse_app. apply is_prefix_app. Qed.

Lemma slice_to_nonneg {A} (l : list A) n :
  0 ≤ n → slice_to l n = take (Z.to_nat n) l.
Proof. intros Hn. unfold slice_to. by rewrite (proj2 (Z.leb_le 0 n) Hn). Qed.

Lemma word_count_no_summary : word_count NO_SUMMARY = 3.
Proof. reflexivity. Qed.

End Words.

Example split_example :
  split (lit "  hola   mundo ") = [lit "hola"; lit "mundo"].
Proof. reflexivity. Qed.

Example strip_example : strip (lit "  a b ") = lit "a b".
Proof. reflexivity. Qed.

Example join_example : join (lit " ") [lit "a"; lit "b"] = lit "a b".
Proof. reflexivity. Qed.

Example slice_example : slice_to [1; 2; 3] (-1) = [1; 2] ∧ slice_to [1; 2; 3] 2 = [1; 2].
Proof. split; reflexivity. Qed.

Example str_of_int_example : str_of_int 50 = lit "50" ∧ str_of_int (-7) = lit "-7".
Proof. split; reflexivity. Qed.

(** ** Running computations *)

(** Unfold one layer of the monad in the goal. *)
Ltac run :=
  unfold bind, try_except, call, ret, raise, from_outcome, print, emit,
    results_append, set_results, get_results; simpl.

Lemma blank_test_false (text : pystr) :
  strip text ≠ [] →
  bool_decide (text = []) || bool_decide (strip text = []) = false.
Proof.
  intros Hne. rewrite (bool_decide_eq_false_2 (strip text = [])) by done.
  rewrite bool_decide_eq_false_2; [done|]. by intros ->.
Qed.

(** A handler that only prints and returns cannot raise, so the [try]
    around any body returns. *)
Lemma try_except_returns {World A} (c : M (World := World) A) (h : exn → M A) :
  (∀ e st, ∃ a st', h e st = (Ret a, st')) →
  ∀ st, ∃ a st', try_except c h st = (Ret a, st').
Proof.
  intros Hh st. unfold try_except.
  destruct (c st) as [[a|e] st1]; [by eauto|]. apply Hh.
Qed.

(** ** The word limit of the summariser *)

Section Cap.

Implicit Types (c s : pystr) (wl : Z).

Lemma cap_words_truncated c wl :
  wl < word_count c →
  cap_words c wl = join (lit " ") (slice_to (split c) wl) ++ ELLIPSIS.
Proof.
  intros H. unfold cap_words, word_count in *.
  by rewrite (proj2 (Z.gtb_gt _ _)) by lia.
Qed.

Lemma cap_words_whole c wl : word_count c ≤ wl → cap_words c wl = c.
Proof.
  intros H. unfold cap_words, word_count in *.
  destruct (Z.gtb_spec (len (split c)) wl); [lia|done].
Qed.

Lemma cap_words_ends c wl :
  wl < word_count c → endswith (cap_words c wl) ELLIPSIS = true.
Proof. intros H. rewrite cap_words_truncated by done. apply endswith_app. Qed.

(** With a limit of at least one word, the truncated text splits into
    the first [wl - 1] words and the [wl]-th word with the marker glued
    to it. *)
Lemma cap_words_split c wl :
  1 ≤ wl → wl < word_count c →
  ∃ w, split c !! Z.to_nat (wl - 1) = Some w ∧
    split (cap_words c wl) = take (Z.to_nat (wl - 1)) (split c) ++ [w ++ ELLIPSIS].
Proof.
  intros H1 Hlt. rewrite cap_words_truncated by done.
  unfold word_count, len in Hlt.
  rewrite slice_to_nonneg by lia.
  destruct (lookup_lt_is_Some_2 (split c) (Z.to_nat (wl - 1))) as [w Hw]; [lia|].
  exists w. split; [done|].
  assert (take (Z.to_nat wl) (split c)
          = take (Z.to_nat (wl - 1)) (split c) ++ [w]) as Htake.
  { replace (Z.to_nat wl) with (S (Z.to_nat (wl - 1))) by lia.
    by apply take_S_r. }
  rewrite Htake, join_snoc_app. apply split_join.
  pose proof (split_words c) as Hall.
  apply Forall_app. split.
  - by apply Forall_take.
  - constructor; [|done]. apply is_word_app_ellipsis.
    eapply Forall_lookup_1; eauto.
Qed.

Lemma cap_words_count_truncated c wl :
  1 ≤ wl → wl < word_count c → word_count (cap_words c wl) = wl.
Proof.
  intros H1 Hlt. destruct (cap_words_split c wl) as (w & Hw & Hsplit); [done..|].
  unfold word_count, len in *.
  rewrite Hsplit, length_app, length_take. simpl. lia.
Qed.

Lemma cap_words_count c wl : 1 ≤ wl → word_count (cap_words c wl) ≤ wl.
Proof.
  intros H1. destruct (Z_lt_le_dec wl (word_count c)).
  - rewrite cap_words_count_truncated by done. lia.
  - by rewrite cap_words_whole.
Qed.

End Cap.

(** ** What the summariser returns *)

Section Summariser.
Context {World : Type} (B : Backends World) (G : Globals).

Implicit Types (text : pystr) (wl : Z) (st : state World).

Lemma summarise_text_rank_blank text n wl st :
  strip text = [] → summarise_text_rank B text n wl st = (Ret NO_SUMMARY, st).
Proof.
  intros Hb. unfold summarise_text_rank.
  rewrite (bool_decide_eq_true_2 (strip text = [])) by done.
  by rewrite orb_true_r.
Qed.

Lemma summarise_text_rank_run text n wl st :
  strip text ≠ [] →
  ∃ st', summarise_text_rank B text n wl st
         = (Ret (text_rank_summary (text_rank B text n (world st)).1 wl), st')
         ∧ results st' = results st.
Proof.
  intros Hne. unfold summarise_text_rank. rewrite blank_test_false by done.
  run. destruct (text_rank B text n (world st)) as [[sentences|e] w]; simpl.
  - unfold cap_words. destruct (_ >? _); eauto.
  - eauto.
Qed.

Lemma summarise_with_ai_disabled text wl st :
  ¬ ai_enabled G → summarise_with_ai B G text wl st = (Ret None, st).
Proof.
  intros Hoff. unfold summarise_with_ai, ai_enabled in *.
  destruct (USE_OPENAI G); [|done]. simpl.
  rewrite bool_decide_eq_true_2; [done|].
  destruct (ai_client G); [|done]. exfalso. by apply Hoff.
Qed.

Lemma summarise_with_ai_blank text wl st :
  strip text = [] → summarise_with_ai B G text wl st = (Ret None, st).
Proof.
  intros Hb. unfold summarise_with_ai.
  destruct (_ || _); [done|].
  rewrite (bool_decide_eq_true_2 (strip text = [])) by done.
  by rewrite orb_true_r.
Qed.

Lemma summarise_with_ai_run text wl st :
  ai_enabled G → strip text ≠ [] →
  ∃ st', summarise_with_ai B G text wl st
         = (Ret (ai_summary
                   (chat_completions_create B (summary_request text wl) (world st)).1 wl),
            st')
         ∧ results st' = results st.
Proof.
  intros [Huse Hclient] Hne. unfold summarise_with_ai.
  rewrite Huse, (bool_decide_eq_false_2 (ai_client G = None)) by done. simpl.
  rewrite blank_test_false by done. run.
  destruct (chat_completions_create B _ (world st)) as [[choices|e] w]; simpl.
  - destruct (first_content_stripped choices) as [summary|e]; simpl.
    + unfold cap_words. destruct (_ >? _); eauto.
    + destruct (_ || _); eauto.
  - destruct (_ || _); eauto.
Qed.

(** [summarise_with_ai] returns, whatever the client does. *)
Lemma summarise_with_ai_returns text wl st :
  ∃ o st', summarise_with_ai B G text wl st = (Ret o, st')
           ∧ results st' = results st
           ∧ (o = None ∨ ∃ candidate, o = Some (cap_words candidate wl)).
Proof.
  destruct (decide (ai_enabled G)) as [Hon|Hoff].
  - destruct (decide (strip text = [])) as [Hb|Hne].
    + rewrite summarise_with_ai_blank by done. eauto 6.
    + destruct (summarise_with_ai_run text wl st) as (st' & -> & Hres); [done..|].
      do 2 eexists. split; [done|]. split; [done|].
      unfold ai_summary. destruct (_.1) as [choices|]; [|by left].
      destruct (first_content_stripped choices); eauto.
  - rewrite summarise_with_ai_disabled by done. eauto 6.
Qed.

(** [summarise_text_rank] returns, whatever the library does. *)
Lemma summarise_text_rank_returns text n wl st :
  ∃ s st', summarise_text_rank B text n wl st = (Ret s, st')
           ∧ results st' = results st
           ∧ (s = NO_SUMMARY ∨ ∃ candidate, s = cap_words candidate wl).
Proof.
  destruct (decide (strip text = [])) as [Hb|Hne].
  - rewrite summarise_text_rank_blank by done. eauto 6.
  - destruct (summarise_text_rank_run text n wl st) as (st' & -> & Hres); [done|].
    do 2 eexists. split; [done|]. split; [done|].
    unfold text_rank_summary. destruct (_.1); eauto.
Qed.

(** The summary is the AI's when it gives one, TextRank's otherwise. *)
Lemma summarise_unfold name text wl st :
  (∃ s st', summarise_with_ai B G text wl st = (Ret (Some s), st')
            ∧ USE_OPENAI G = true
            ∧ summarise B G name text wl st = (Ret s, st'))
  ∨ (∃ st1 st2, summarise_with_ai B G text wl st = (Ret None, st1)
                ∧ world st2 = world st1 ∧ results st2 = results st
                ∧ summarise B G name text wl st
                  = summarise_text_rank B text 4 wl st2).
Proof.
  unfold summarise. run.
  destruct (USE_OPENAI G) eqn:Huse.
  - destruct (summarise_with_ai_returns text wl st) as (o & st' & Hrun & Hres & _).
    rewrite Hrun. destruct o as [s|]; simpl.
    + left. eauto.
    + right. do 2 eexists. split; [done|]. split; [|split; [|done]]; done.
  - right. exists st, st. split; [|done].
    apply summarise_with_ai_disabled. unfold ai_enabled. rewrite Huse. by intros [? _].
Qed.

Lemma summarise_returns name text wl st :
  ∃ s st', summarise B G name text wl st = (Ret s, st')
           ∧ results st' = results st
           ∧ (s = NO_SUMMARY ∨ ∃ candidate, s = cap_words candidate wl).
Proof.
  destruct (summarise_unfold name text wl st)
    as [(s & st' & Hai & _ & ->)|(st1 & st2 & Hai & _ & Hres & ->)].
  - destruct (summarise_with_ai_returns text wl st) as (o & st'' & Hrun & Hres & Ho).
    rewrite Hai in Hrun. simplify_eq. destruct Ho as [|[c Hc]]; [done|].
    simplify_eq. eauto 8.
  - destruct (summarise_text_rank_returns text 4 wl st2) as (s & st' & -> & Hres' & Hs).
    exists s, st'. split; [done|]. split; [congruence|done].
Qed.

End Summariser.

Example summarise_no_capability_offline :
  (summarise Scripted.offline Scripted.no_capability JNull (lit "Arsenal is a club.") 50
     Scripted.start).1 = Ret NO_SUMMARY.
Proof. reflexivity. Qed.

Example summarise_verbose_ai :
  (summarise Scripted.verbose Scripted.full_capability JNull (lit "El Arsenal es un club.") 3
     Scripted.start).1 = Ret (lit "gol gol gol...").
Proof. reflexivity. Qed.

Example summarise_verbose_text_rank :
  (summarise Scripted.verbose Scripted.no_capability JNull (lit "El Arsenal es un club.") 2
     Scripted.start).1 = Ret (lit "gol gol...").
Proof. reflexivity. Qed.

Example summarise_limit_zero :
  (summarise Scripted.one_sentence Scripted.no_capability JNull (lit "Arsenal is a club.") 0
     Scripted.start).1 = Ret (lit "...").
Proof. reflexivity. Qed.

Example summarise_limit_negative :
  (summarise Scripted.one_sentence Scripted.no_capability JNull (lit "Arsenal is a club.") (-1)
     Scripted.start).1 = Ret (lit "Arsenal es un...").
Proof. reflexivity. Qed.

(** ** C1 and C10: the word limit and the ellipsis *)

Section WordLimit.
Context {World : Type} (B : Backends World) (G : Globals).

Implicit Types (text : pystr) (wl : Z) (st : state World).

Lemma capped_or_unavailable_count s wl :
  1 ≤ wl →
  s = NO_SUMMARY ∨ (∃ candidate, s = cap_words candidate wl) →
  (s = NO_SUMMARY ∨ word_count s ≤ wl) ∧ (3 ≤ wl → word_count s ≤ wl).
Proof.
  intros H1 [->|[c ->]].
  - split; [by left|]. rewrite word_count_no_summary. lia.
  - pose proof (cap_words_count c wl H1). split; [by right|done].
Qed.

(** The AI branch of [summarise] on an answer that carries text. *)
Lemma summarise_ai_branch name text wl st choices summary :
  ai_enabled G → strip text ≠ [] →
  (chat_completions_create B (summary_request text wl) (world st)).1 = Ret choices →
  first_content_stripped choices = Ret summary →
  ∃ st', summarise B G name text wl st = (Ret (cap_words summary wl), st').
Proof.
  intros Hon Hne Hchat Hfirst.
  destruct (summarise_with_ai_run B G text wl st) as (st1 & Hrun & _); [done..|].
  rewrite Hchat in Hrun. simpl in Hrun. rewrite Hfirst in Hrun.
  destruct (summarise_unfold B G name text wl st)
    as [(s & st' & Hai & _ & ->)|(st1' & st2 & Hai & _)].
  - rewrite Hai in Hrun. simplify_eq. eauto.
  - rewrite Hai in Hrun. simplify_eq.
Qed.

(** The TextRank branch of [summarise]: the AI gave nothing (it is
    disabled, or its attempt failed) and the library answers. *)
Lemma summarise_text_rank_branch name text wl st st1 sentences :
  summarise_with_ai B G text wl st = (Ret None, st1) →
  strip text ≠ [] →
  (text_rank B text 4 (world st1)).1 = Ret sentences →
  ∃ st', summarise B G name text wl st
         = (Ret (cap_words (strip (join (lit " ") sentences)) wl), st').
Proof.
  intros Hnone Hne Hrank.
  destruct (summarise_unfold B G name text wl st)
    as [(s & st' & Hai & _)|(st1' & st2 & Hai & Hw & _ & ->)].
  - rewrite Hai in Hnone. simplify_eq.
  - rewrite Hai in Hnone. simplify_eq.
    destruct (summarise_text_rank_run B text 4 wl st2) as (st' & -> & _); [done|].
    rewrite Hw, Hrank. simpl. eauto.
Qed.

(** C1 (amended): with a word limit of at least 1 the summariser
    returns either the literal "Resumen no disponible" or a string of at
    most [wl] whitespace-separated words, hence at most [wl] words whenever
    [wl] is at least 3; and for any word limit, when the candidate text has
    more than [wl] words (truncation is applied), in the AI branch as in the
    TextRank branch, the returned string ends with "...". *)
Theorem summarise_word_limit :
  (∀ name text wl st, 1 ≤ wl →
     ∃ s st', summarise B G name text wl st = (Ret s, st')
       ∧ (s = NO_SUMMARY ∨ word_count s ≤ wl)
       ∧ (3 ≤ wl → word_count s ≤ wl))
  ∧ (∀ name text wl st choices summary,
       ai_enabled G → strip text ≠ [] →
       (chat_completions_create B (summary_request text wl) (world st)).1 = Ret choices →
       first_content_stripped choices = Ret summary →
       wl < word_count summary →
       ∃ s st', summarise B G name text wl st = (Ret s, st')
         ∧ endswith s ELLIPSIS = true)
  ∧ (∀ name text wl st st1 sentences,
       summarise_with_ai B G text wl st = (Ret None, st1) →
       strip text ≠ [] →
       (text_rank B text 4 (world st1)).1 = Ret sentences →
       wl < word_count (strip (join (lit " ") sentences)) →
       ∃ s st', summarise B G name text wl st = (Ret s, st')
         ∧ endswith s ELLIPSIS = true).
Proof.
  split; [|split].
  - intros name text wl st H1.
    destruct (summarise_returns B G name text wl st) as (s & st' & Hrun & _ & Hs).
    exists s, st'. split; [done|]. by apply capped_or_unavailable_count.
  - intros name text wl st choices summary Hon Hne Hchat Hfirst Hlt.
    destruct (summarise_ai_branch name text wl st choices summary) as [st' Hrun]; [done..|].
    do 2 eexists. split; [exact Hrun|]. by apply cap_words_ends.
  - intros name text wl st st1 sentences Hnone Hne Hrank Hlt.
    destruct (summarise_text_rank_branch name text wl st st1 sentences)
      as [st' Hrun]; [done..|].
    do 2 eexists. split; [exact Hrun|]. by apply cap_words_ends.
Qed.

(** C10 (amended): with a word limit of at least 1, when the candidate
    text has more than [wl] words, the returned string splits on whitespace
    into exactly [wl] tokens: the first [wl - 1] words of the candidate, then
    its [wl]-th word with "..." glued to it, without a space; in the AI
    function as in the TextRank function. *)
Theorem truncation_glues_ellipsis :
  (∀ text wl st choices summary,
     1 ≤ wl →
     ai_enabled G → strip text ≠ [] →
     (chat_completions_create B (summary_request text wl) (world st)).1 = Ret choices →
     first_content_stripped choices = Ret summary →
     wl < word_count summary →
     ∃ s st' w, summarise_with_ai B G text wl st = (Ret (Some s), st')
       ∧ split summary !! Z.to_nat (wl - 1) = Some w
       ∧ split s = take (Z.to_nat (wl - 1)) (split summary) ++ [w ++ ELLIPSIS]
       ∧ len (split s) = wl)
  ∧ (∀ text n wl st sentences,
       1 ≤ wl →
       strip text ≠ [] →
       (text_rank B text n (world st)).1 = Ret sentences →
       wl < word_count (strip (join (lit " ") sentences)) →
       ∃ s st' w, summarise_text_rank B text n wl st = (Ret s, st')
         ∧ split (strip (join (lit " ") sentences)) !! Z.to_nat (wl - 1) = Some w
         ∧ split s = take (Z.to_nat (wl - 1)) (split (strip (join (lit " ") sentences)))
                     ++ [w ++ ELLIPSIS]
         ∧ len (split s) = wl).
Proof.
  split.
  - intros text wl st choices summary H1 Hon Hne Hchat Hfirst Hlt.
    destruct (summarise_with_ai_run B G text wl st) as (st' & Hrun & _); [done..|].
    rewrite Hchat in Hrun. simpl in Hrun. rewrite Hfirst in Hrun.
    destruct (cap_words_split summary wl) as (w & Hw & Hsplit); [done..|].
    exists (cap_words summary wl), st', w. repeat split; [done..|].
    by apply cap_words_count_truncated.
  - intros text n wl st sentences H1 Hne Hrank Hlt.
    destruct (summarise_text_rank_run B text n wl st) as (st' & Hrun & _); [done|].
    rewrite Hrank in Hrun. simpl in Hrun.
    destruct (cap_words_split (strip (join (lit " ") sentences)) wl)
      as (w & Hw & Hsplit); [done..|].
    eexists _, st', w. repeat split; [done..|].
    by apply cap_words_count_truncated.
Qed.

End WordLimit.

(** C1 at a limit of 50 with an AI that answers sixty words. *)
Lemma summarise_word_limit_witness :
  1 ≤ 50 ∧
  ∃ s st', summarise Scripted.verbose Scripted.full_capability JNull
             (lit "El Arsenal es un club.") 50 Scripted.start = (Ret s, st')
    ∧ (s = NO_SUMMARY ∨ word_count s ≤ 50)
    ∧ (3 ≤ 50 → word_count s ≤ 50).
Proof.
  split; [lia|].
  apply (proj1 (summarise_word_limit Scripted.verbose Scripted.full_capability)).
  lia.
Defined.

(** C1 as stated fails: with a limit of 2 and a failing TextRank the
    summariser returns the three words "Resumen no disponible". *)
Lemma summarise_word_limit_counterexample :
  ¬ (∀ (B : Backends unit) G name text wl st s st',
       summarise B G name text wl st = (Ret s, st') → word_count s ≤ wl).
Proof.
  intros H.
  specialize (H Scripted.offline Scripted.no_capability JNull
                (lit "Arsenal is a club.") 2 Scripted.start _ _ eq_refl).
  vm_compute in H. by apply H.
Qed.

(** C10 at a limit of 50 with a TextRank answer of sixty words. *)
Lemma truncation_glues_ellipsis_witness :
  ∃ s st' w,
    summarise_text_rank Scripted.verbose (lit "El Arsenal es un club.") 4 50 Scripted.start
      = (Ret s, st')
    ∧ split (strip (join (lit " ") [Scripted.sixty_words])) !! Z.to_nat (50 - 1) = Some w
    ∧ split s = take (Z.to_nat (50 - 1)) (split (strip (join (lit " ") [Scripted.sixty_words])))
                ++ [w ++ ELLIPSIS]
    ∧ len (split s) = 50.
Proof.
  apply (proj2 (truncation_glues_ellipsis Scripted.verbose Scripted.no_capability)).
  - lia.
  - by vm_compute.
  - reflexivity.
  - by vm_compute.
Defined.

(** C10 as stated fails: with a limit of 0 the truncated string is
    "...", one token and not zero. *)
Lemma truncation_limit_zero_counterexample :
  ¬ (∀ (B : Backends unit) text n wl st sentences,
       strip text ≠ [] →
       (text_rank B text n (world st)).1 = Ret sentences →
       wl < word_count (strip (join (lit " ") sentences)) →
       ∃ s st', summarise_text_rank B text n wl st = (Ret s, st')
         ∧ len (split s) = wl).
Proof.
  intros H.
  destruct (H Scripted.one_sentence (lit "Arsenal is a club.") 4 0 Scripted.start
              [lit "Arsenal es un club."])
    as (s & st' & Hrun & Hlen); [by vm_compute|reflexivity|by vm_compute|].
  vm_compute in Hrun. injection Hrun as <- _.
  vm_compute in Hlen. discriminate Hlen.
Qed.

(** ** C3, C6 and C8: the translator *)

Section Translator.
Context {World : Type} (B : Backends World) (G : Globals).

Implicit Types (text dest : pystr) (st : state World) (w : World).

Lemma ai_test_true :
  ai_enabled G → USE_OPENAI G && negb (bool_decide (ai_client G = None)) = true.
Proof.
  intros [-> Hc]. by rewrite (bool_decide_eq_false_2 (ai_client G = None)).
Qed.

Lemma ai_test_false :
  ¬ ai_enabled G → USE_OPENAI G && negb (bool_decide (ai_client G = None)) = false.
Proof.
  unfold ai_enabled. intros Hoff.
  destruct (USE_OPENAI G); [|done]. simpl.
  destruct (ai_client G); [|done]. exfalso. by apply Hoff.
Qed.

(** [translate_text] returns, whatever the libraries do, and leaves
    [results] alone. *)
Lemma translate_text_returns text dest st :
  ∃ s st', translate_text B G text dest st = (Ret s, st')
           ∧ results st' = results st.
Proof.
  unfold translate_text. case_bool_decide; [by eauto|].
  run. destruct (_translator_available G); simpl.
  - destruct (googletrans_translate B text dest (world st)) as [[t|e] w]; simpl;
      [by eauto|].
    destruct (USE_OPENAI G && _); simpl; [|by eauto].
    destruct (chat_completions_create B _ w) as [[choices|e'] w']; simpl; [|by eauto].
    destruct (first_content_stripped choices); simpl; eauto.
  - destruct (USE_OPENAI G && _); simpl; [|by eauto].
    destruct (chat_completions_create B _ (world st)) as [[choices|e'] w']; simpl;
      [|by eauto].
    destruct (first_content_stripped choices); simpl; eauto.
Qed.

(** The AI attempt of [translate_text], under [ai_translation_fails]:
    each way of failing leads to the last [return]. *)
Ltac ai_attempt_fails H :=
  destruct H as [Hoff|[[e' He']|(choices & e' & Hc & He')]];
  [ rewrite ai_test_false by done; simpl; by eauto
  | destruct (USE_OPENAI _ && _); simpl; [|by eauto];
    destruct (chat_completions_create _ _ _) as [o' w']; simpl in He'; subst o';
    simpl; by eauto
  | destruct (USE_OPENAI _ && _); simpl; [|by eauto];
    destruct (chat_completions_create _ _ _) as [o' w']; simpl in Hc; subst o';
    simpl; rewrite He'; simpl; by eauto ].

(** C3 (amended): on the empty string the translator returns the empty
    string, and the trace and the world are the ones it started with:
    nothing was printed and neither the local translation backend nor the
    AI backend was called.  (A string of whitespace only is not empty and is
    not short-circuited.) *)
Theorem translate_text_empty dest st :
  ∃ st', translate_text B G [] dest st = (Ret [], st')
    ∧ trace st' = trace st
    ∧ world st' = world st.
Proof.
  exists st. unfold translate_text.
  rewrite bool_decide_eq_true_2 by done.
  by repeat split.
Qed.

(** C6: for a non-empty text, when the local translation is unavailable
    or its attempt fails, and the AI backend is unconfigured or its attempt
    fails, the translator returns the text it was given. *)
Theorem translate_text_identity text dest st :
  text ≠ [] →
  local_translation_fails B G text dest (world st) →
  ai_translation_fails B G text (world_after_local B G text dest (world st)) →
  ∃ st', translate_text B G text dest st = (Ret text, st').
Proof.
  intros Hne Hlocal Hai. unfold translate_text.
  rewrite bool_decide_eq_false_2 by done.
  unfold world_after_local in Hai. unfold local_translation_fails in Hlocal. run.
  destruct (_translator_available G); simpl.
  - destruct Hlocal as [|[e He]]; [done|].
    destruct (googletrans_translate B text dest (world st)) as [o w].
    simpl in He, Hai. subst o. simpl. ai_attempt_fails Hai.
  - ai_attempt_fails Hai.
Qed.

End Translator.

(** C6 with both capabilities present and every backend unreachable. *)
Lemma translate_text_identity_witness :
  ∃ st', translate_text Scripted.offline Scripted.full_capability
           (lit "Arsenal is a club.") (lit "es") Scripted.start
         = (Ret (lit "Arsenal is a club."), st').
Proof.
  apply translate_text_identity.
  - done.
  - right. by eexists.
  - right. left. by eexists.
Defined.

Example translate_text_offline_trace :
  trace (translate_text Scripted.offline Scripted.full_capability
           (lit "Gol") (lit "es") Scripted.start).2
  = [ call_translate (lit "Gol") (lit "es");
      print_line (lit "googletrans failed: network is unreachable");
      call_chat (translation_request (lit "Gol"));
      print_line (lit "OpenAI translate failed: network is unreachable");
      print_line (lit "No translation available, returning original English text.") ].
Proof. reflexivity. Qed.

(** A blank text reaches the local translation backend. *)
Example translate_text_blank_calls :
  translate_text Scripted.verbose Scripted.full_capability (lit " ") (lit "es") Scripted.start
  = (Ret (lit "El Arsenal es un club."),
     {| world := tt; trace := [call_translate (lit " ") (lit "es")]; results := [] |}).
Proof. reflexivity. Qed.

(** C3 as stated fails: a text of one space is blank, and without any
    capability the translator returns it unchanged, not the empty string. *)
Lemma translate_text_blank_counterexample :
  ¬ (∀ (B : Backends unit) G text dest st,
       strip text = [] →
       ∃ st', translate_text B G text dest st = (Ret [], st')).
Proof.
  intros H.
  destruct (H Scripted.offline Scripted.no_capability (lit " ") (lit "es") Scripted.start)
    as [st' Hrun]; [reflexivity|].
  vm_compute in Hrun. discriminate Hrun.
Qed.

(** C8: the translator returns a string, and the summariser (the whole
    of it as well as each of its two functions) returns, whatever the
    translation, AI and extractive-summarisation backends do, exceptions
    included. *)
Theorem translator_and_summariser_return {World} (B : Backends World) (G : Globals) :
  (∀ text dest st, ∃ (s : pystr) st', translate_text B G text dest st = (Ret s, st'))
  ∧ (∀ name text wl st, ∃ (s : pystr) st', summarise B G name text wl st = (Ret s, st'))
  ∧ (∀ text n wl st, ∃ (s : pystr) st', summarise_text_rank B text n wl st = (Ret s, st'))
  ∧ (∀ text wl st, ∃ (o : option pystr) st', summarise_with_ai B G text wl st = (Ret o, st')).
Proof.
  repeat split.
  - intros text dest st.
    destruct (translate_text_returns B G text dest st) as (s & st' & ? & _). eauto.
  - intros name text wl st.
    destruct (summarise_returns B G name text wl st) as (s & st' & ? & _). eauto.
  - intros text n wl st.
    destruct (summarise_text_rank_returns B text n wl st) as (s & st' & ? & _). eauto.
  - intros text wl st.
    destruct (summarise_with_ai_returns B G text wl st) as (o & st' & ? & _). eauto.
Qed.

(** ** C4, C5 and C7: the orchestrator *)

Section Orchestrator.
Context {World : Type} (B : Backends World) (G : Globals).
Context (base_url : pystr) (delay_between_calls : Q).

Implicit Types (team : pystr) (teams : list pystr) (st : state World) (w : World).

Opaque lit.

(** One iteration never raises; it appends one record when the team is
    found and none otherwise. *)
Lemma process_team_run team st :
  ∃ st', process_team B G base_url delay_between_calls team st = (Ret tt, st')
    ∧ match team_found (lookup_answer B base_url team (world st)) with
      | Some (team_info, description_en) =>
          ∃ r, results st' = results st ++ [r] ∧ fields_from team_info r
      | None => results st' = results st
      end.
Proof.
  unfold process_team, lookup_answer. run.
  destruct (requote_uri B team) as [quoted|e]; simpl; [|by eauto].
  destruct (requests_get B _ 10 (world st)) as [[r|e] w]; simpl; [|by eauto].
  destruct r as [status body]; simpl.
  destruct status as [[]|e]; simpl; [|by eauto].
  destruct body as [data|e]; simpl; [|by eauto].
  destruct data as [|b|z|q|s|items|data]; simpl; try (by eauto).
  1: { destruct b; simpl; by eauto. }
  1-4: by destruct (negb _); simpl; eauto.
  case_bool_decide as Hdata; simpl.
  { subst data. rewrite lookup_empty. by eauto. }
  destruct (data !! lit "teams") as [teams_value|] eqn:Hteams; simpl; [|by eauto].
  destruct teams_value as [|b|z|q|s|items|fields]; simpl; try (by eauto).
  1: { destruct b; simpl; by eauto. }
  1-2: by destruct (negb _); simpl; eauto.
  1: { destruct s; simpl; by eauto. }
  2: { destruct (negb _); simpl; by eauto. }
  destruct items as [|team_info items]; simpl; [by eauto|].
  destruct team_info as [|b|z|q|s|items'|team_info]; simpl; try (by eauto).
  destruct (team_info !! lit "strDescriptionEN") as [description_en|] eqn:Hdesc;
    simpl; [|by eauto].
  destruct description_en as [|b|z|q|description_en|items'|fields]; simpl;
    try (by eauto).
  1: { destruct b; simpl; by eauto. }
  1-2,4-5: by destruct (negb _); simpl; eauto.
  case_bool_decide as Hempty; simpl.
  { subst. simpl. eauto. }
  case_bool_decide as Hblank; simpl; [by eauto|].
  match goal with
  | |- context [translate_text B G ?t ?d ?s] =>
      destruct (translate_text_returns B G t d s) as (description_es & st1 & -> & Hres1)
  end.
  match goal with
  | |- context [summarise B G ?n ?t ?l ?s] =>
      destruct (summarise_returns B G n t l s) as (resumen & st2 & -> & Hres2 & _)
  end.
  simpl in *.
  destruct (time_sleep B delay_between_calls (world st2)) as [[[]|e] w']; simpl;
    eexists; (split; [done|]); simpl; eexists; (split; [by rewrite Hres2, Hres1|]);
    by repeat split.
Qed.

Transparent lit.

Lemma skipped_not_found team w :
  skipped B base_url team w → team_found (lookup_answer B base_url team w) = None.
Proof.
  unfold team_found.
  intros [e ->|r e -> ->|r data -> -> Hfalse|r data -> -> Hfalse
          |r data team_info others -> -> Hteams Hdesc]; try done.
  - destruct (raise_for_status r); [|done].
    destruct data as [| | | | | |data]; try done.
    simpl in Hfalse. apply negb_false_iff, bool_decide_eq_true in Hfalse.
    subst data. by rewrite lookup_empty.
  - destruct (raise_for_status r); [|done].
    destruct (data !! lit "teams") as [[| | | | |[|]|]|]; try done.
  - destruct (raise_for_status r); [|done]. rewrite Hteams.
    destruct Hdesc as [Hnull|(s & -> & Hs)].
    + destruct (team_info !! lit "strDescriptionEN") as [[]|]; simpl in *; done.
    + by rewrite bool_decide_eq_true_2.
Qed.

Lemma for_each_cons {A} (x : A) xs (body : A → M (World := World) unit) st st1 :
  body x st = (Ret tt, st1) →
  for_each (x :: xs) body st = for_each xs body st1.
Proof. intros Hx. simpl. unfold bind. by rewrite Hx. Qed.

Lemma loop_run_sublist teams st kept st' :
  loop_run B G base_url delay_between_calls teams st kept st' → kept.*1 `sublist_of` teams.
Proof.
  induction 1; simpl.
  - constructor.
  - by apply sublist_cons.
  - by apply sublist_skip.
Qed.

Lemma loop_run_results teams st kept st' :
  loop_run B G base_url delay_between_calls teams st kept st' → results st' = results st ++ kept.*2.
Proof.
  induction 1 as [st|team teams st st1 kept st' _ _ Hres _ IH
                  |team teams st st1 info d r kept st' _ _ Hres _ _ IH]; simpl.
  - by rewrite app_nil_r.
  - by rewrite IH, Hres.
  - by rewrite IH, Hres, <- app_assoc.
Qed.

Lemma for_each_loop_run teams st :
  ∃ kept st',
    for_each teams (process_team B G base_url delay_between_calls) st = (Ret tt, st')
    ∧ loop_run B G base_url delay_between_calls teams st kept st'.
Proof.
  revert st. induction teams as [|team teams IH]; intros st.
  - exists [], st. split; [done|constructor].
  - destruct (process_team_run team st) as (st1 & Hrun & Hfound).
    destruct (IH st1) as (kept & st' & Hloop & Hrel).
    rewrite (for_each_cons _ _ _ _ _ Hrun).
    destruct (team_found _) as [[team_info description_en]|] eqn:Hf.
    + destruct Hfound as (r & Hres & Hfields).
      exists ((team, r) :: kept), st'. split; [done|].
      by eapply loop_keep.
    + exists kept, st'. split; [done|]. by eapply loop_skip.
Qed.

Lemma process_teams_run teams st :
  ∃ kept st',
    process_teams B G teams base_url delay_between_calls st = (Ret (kept.*2), st')
    ∧ loop_run B G base_url delay_between_calls teams (fresh st) kept st'.
Proof.
  destruct (for_each_loop_run teams (fresh st)) as (kept & st' & Hloop & Hrel).
  exists kept, st'. split; [|done].
  unfold process_teams. run. fold (fresh st). rewrite Hloop. simpl.
  by rewrite (loop_run_results _ _ _ _ Hrel).
Qed.

(** C4: when the API answers with a matching team that has a non-empty
    English description, the iteration appends a record whose team name,
    sport, league, founding year and stadium are the values of "strTeam",
    "strSport", "strLeague", "intFormedYear" and "strStadium" in the first
    team object, each replaced by the string "N/A" when the object has no
    such key. *)
Theorem record_fields_from_api team st r data team_info others description_en :
  lookup_answer B base_url team (world st) = Ret r →
  raise_for_status r = Ret tt →
  json_body r = Ret (JObj data) →
  data !! lit "teams" = Some (JArr (JObj team_info :: others)) →
  team_info !! lit "strDescriptionEN" = Some (JStr description_en) →
  strip description_en ≠ [] →
  ∃ st' record,
    process_team B G base_url delay_between_calls team st = (Ret tt, st')
    ∧ results st' = results st ++ [record]
    ∧ Equipo record = default (JStr (lit "N/A")) (team_info !! lit "strTeam")
    ∧ Deporte record = default (JStr (lit "N/A")) (team_info !! lit "strSport")
    ∧ Liga record = default (JStr (lit "N/A")) (team_info !! lit "strLeague")
    ∧ Ano_de_fundacion record
      = default (JStr (lit "N/A")) (team_info !! lit "intFormedYear")
    ∧ Estadio record = default (JStr (lit "N/A")) (team_info !! lit "strStadium").
Proof.
  intros Hanswer Hstatus Hbody Hteams Hdesc Hne.
  destruct (process_team_run team st) as (st' & Hrun & Hfound).
  unfold team_found in Hfound.
  rewrite Hanswer, Hstatus, Hbody, Hteams, Hdesc in Hfound.
  rewrite bool_decide_eq_false_2 in Hfound by done.
  destruct Hfound as (record & Hres & Hfields).
  exists st', record. split; [done|]. split; [done|]. exact Hfields.
Qed.

Opaque lit.

(** An iteration on a team that is found: the record it appends holds
    what the translator made of the description and what the summariser made
    of that, whatever their backends did. *)
Lemma process_team_found team st team_info description_en :
  team_found (lookup_answer B base_url team (world st)) = Some (team_info, description_en) →
  ∃ st' r sta stb stc,
    process_team B G base_url delay_between_calls team st = (Ret tt, st')
    ∧ results st' = results st ++ [r]
    ∧ fields_from team_info r
    ∧ translate_text B G description_en (lit "es") sta = (Ret (Descripcion_es r), stb)
    ∧ summarise B G (Equipo r) (Descripcion_es r) 50 stb = (Ret (Resumen r), stc).
Proof.
  intros Hf. unfold team_found, lookup_answer in Hf.
  destruct (requote_uri B team) as [quoted|] eqn:Hq; [|done].
  destruct (requests_get B (search_url base_url quoted) 10 (world st))
    as [[r|] w] eqn:Hget; simpl in Hf; [|done].
  destruct r as [status body]. simpl in Hf.
  destruct status as [[]|]; [|done].
  destruct body as [[| | | | | |data]|]; try done.
  destruct (data !! lit "teams") as [[| | | | |[|[| | | | | |info] items]|]|] eqn:Hteams;
    try done.
  destruct (info !! lit "strDescriptionEN") as [[| | | |d| |]|] eqn:Hdesc; try done.
  case_bool_decide as Hblank; [done|]. injection Hf as <- <-.
  assert (data ≠ ∅) as Hdata by (intros ->; by rewrite lookup_empty in Hteams).
  assert (d ≠ []) as Hd by (by intros ->).
  unfold process_team. run. rewrite Hq. simpl. rewrite Hget. simpl.
  rewrite (bool_decide_eq_false_2 (data = ∅)) by done. simpl.
  rewrite Hteams. simpl. rewrite Hdesc. simpl.
  rewrite (bool_decide_eq_false_2 (d = [])) by done. simpl.
  rewrite (bool_decide_eq_false_2 (strip d = [])) by done. simpl.
  match goal with
  | |- context [translate_text B G ?t ?l ?s] =>
      destruct (translate_text_returns B G t l s) as (description_es & st1 & Hrun1 & Hres1);
      rewrite Hrun1
  end.
  match goal with
  | |- context [summarise B G ?n ?t ?l ?s] =>
      destruct (summarise_returns B G n t l s) as (resumen & st2 & Hrun2 & Hres2 & _);
      rewrite Hrun2
  end.
  simpl in *.
  destruct (time_sleep B delay_between_calls (world st2)) as [[[]|e] w']; simpl;
    do 5 eexists; (split; [reflexivity|]); simpl;
    (split; [by rewrite Hres2, Hres1|]); (split; [by repeat split|]); simpl;
    (split; [exact Hrun1|exact Hrun2]).
Qed.

Transparent lit.

Lemma for_each_app_run {A} (xs ys : list A) (body : A → M (World := World) unit) st st1 :
  for_each xs body st = (Ret tt, st1) →
  for_each (xs ++ ys) body st = for_each ys body st1.
Proof.
  revert st. induction xs as [|x xs IH]; intros st Hrun; simpl in *.
  - unfold ret in Hrun. by simplify_eq.
  - unfold bind in *. destruct (body x st) as [[[]|e] st0]; [|done]. by apply IH.
Qed.

Lemma loop_run_for_each teams st kept st' :
  loop_run B G base_url delay_between_calls teams st kept st' →
  for_each teams (process_team B G base_url delay_between_calls) st = (Ret tt, st').
Proof.
  induction 1 as [st|team teams st st1 kept st' Hrun _ _ _ IH
                  |team teams st st1 info d r kept st' Hrun _ _ _ _ IH]; [done|..];
    by rewrite (for_each_cons _ _ _ _ _ Hrun).
Qed.

(** The run on a list, cut at one of its names. *)
Lemma process_teams_split teams1 team teams2 st kept1 st1 st2 kept2 st' :
  loop_run B G base_url delay_between_calls teams1 (fresh st) kept1 st1 →
  process_team B G base_url delay_between_calls team st1 = (Ret tt, st2) →
  loop_run B G base_url delay_between_calls teams2 st2 kept2 st' →
  process_teams B G (teams1 ++ team :: teams2) base_url delay_between_calls st
  = (Ret (results st'), st')
  ∧ results st1 = kept1.*2
  ∧ results st' = results st2 ++ kept2.*2.
Proof.
  intros Hloop1 Hrun Hloop2.
  split; [|split; [by rewrite (loop_run_results _ _ _ _ Hloop1)
                  |exact (loop_run_results _ _ _ _ Hloop2)]].
  unfold process_teams. run. fold (fresh st).
  rewrite (for_each_app_run _ _ _ _ _ (loop_run_for_each _ _ _ _ Hloop1)).
  rewrite (for_each_cons _ _ _ _ _ Hrun).
  by rewrite (loop_run_for_each _ _ _ _ Hloop2).
Qed.

(** C5 (amended): [process_teams] never raises.  When a name is
    skipped at its turn (the request fails, the status is an error, there is
    no data or no team match, the English description is missing or blank),
    its iteration returns and leaves the results as they were, the names
    after it are processed next, and the list returned is the records of the
    names before it followed by the records of the names after it: only that
    team is left out.  When the team is found, it is recorded whatever the
    translation and summary backends do: their exceptions are caught inside
    the translator and the summariser, whose results the record holds. *)
Theorem process_teams_skips_locally :
  (∀ teams st, ∃ rs st',
     process_teams B G teams base_url delay_between_calls st = (Ret rs, st'))
  ∧ (∀ teams1 team teams2 st kept1 st1,
       loop_run B G base_url delay_between_calls teams1 (fresh st) kept1 st1 →
       skipped B base_url team (world st1) →
       ∃ st2 kept2 st',
         process_team B G base_url delay_between_calls team st1 = (Ret tt, st2)
         ∧ results st2 = results st1
         ∧ loop_run B G base_url delay_between_calls teams2 st2 kept2 st'
         ∧ process_teams B G (teams1 ++ team :: teams2) base_url delay_between_calls st
           = (Ret ((kept1 ++ kept2).*2), st'))
  ∧ (∀ teams1 team teams2 st kept1 st1 team_info description_en,
       loop_run B G base_url delay_between_calls teams1 (fresh st) kept1 st1 →
       team_found (lookup_answer B base_url team (world st1))
       = Some (team_info, description_en) →
       ∃ st2 r kept2 st' sta stb stc,
         process_team B G base_url delay_between_calls team st1 = (Ret tt, st2)
         ∧ results st2 = results st1 ++ [r]
         ∧ translate_text B G description_en (lit "es") sta = (Ret (Descripcion_es r), stb)
         ∧ summarise B G (Equipo r) (Descripcion_es r) 50 stb = (Ret (Resumen r), stc)
         ∧ loop_run B G base_url delay_between_calls teams2 st2 kept2 st'
         ∧ process_teams B G (teams1 ++ team :: teams2) base_url delay_between_calls st
           = (Ret ((kept1 ++ (team, r) :: kept2).*2), st')).
Proof.
  split; [|split].
  - intros teams st. destruct (process_teams_run teams st) as (kept & st' & Hrun & _).
    eauto.
  - intros teams1 team teams2 st kept1 st1 Hloop1 Hskip.
    destruct (process_team_run team st1) as (st2 & Hrun & Hfound).
    rewrite (skipped_not_found _ _ Hskip) in Hfound.
    destruct (for_each_loop_run teams2 st2) as (kept2 & st' & _ & Hloop2).
    destruct (process_teams_split teams1 team teams2 st kept1 st1 st2 kept2 st')
      as (Hall & Hres1 & Hres'); [done..|].
    exists st2, kept2, st'. split; [done|]. split; [done|]. split; [done|].
    by rewrite Hall, Hres', Hfound, Hres1, fmap_app.
  - intros teams1 team teams2 st kept1 st1 team_info description_en Hloop1 Hf.
    destruct (process_team_found team st1 team_info description_en Hf)
      as (st2 & r & sta & stb & stc & Hrun & Hres & _ & Htr & Hsum).
    destruct (for_each_loop_run teams2 st2) as (kept2 & st' & _ & Hloop2).
    destruct (process_teams_split teams1 team teams2 st kept1 st1 st2 kept2 st')
      as (Hall & Hres1 & Hres'); [done..|].
    exists st2, r, kept2, st', sta, stb, stc.
    split; [done|]. split; [done|]. split; [done|]. split; [done|]. split; [done|].
    rewrite Hall, Hres', Hres, Hres1, fmap_app. simpl. by rewrite <- app_assoc.
Qed.

(** C7: the list [process_teams] returns holds one record for each
    team whose iteration found it, and for no other; these teams are a
    subsequence of the input list and their records come in the same order. *)
Theorem process_teams_keeps_input_order teams st :
  ∃ kept st',
    process_teams B G teams base_url delay_between_calls st = (Ret (kept.*2), st')
    ∧ loop_run B G base_url delay_between_calls teams (fresh st) kept st'
    ∧ kept.*1 `sublist_of` teams.
Proof.
  destruct (process_teams_run teams st) as (kept & st' & Hrun & Hrel).
  exists kept, st'. split; [done|]. split; [done|].
  by eapply loop_run_sublist.
Qed.

End Orchestrator.

(** ** C2 and C9: the exporter *)

Section Exporter.
Context {World : Type} (B : Backends World).

Implicit Types (items : list TeamRecord) (path : pystr) (st : state World).

(** C9: with an empty sequence of records [save_to_csv] prints
    "No rows to save." and does nothing else: the world is untouched and
    the only event is that line, so neither [os.makedirs] nor [to_csv] is
    called and no file or directory is created. *)
Theorem save_to_csv_empty path st :
  ∃ st', save_to_csv B [] path st = (Ret tt, st')
    ∧ world st' = world st
    ∧ trace st' = trace st ++ [print_line (lit "No rows to save.")].
Proof. eexists. split; [reflexivity|]. by split. Qed.

(** Once the directory exists, a failure to write is caught and printed. *)
Lemma save_to_csv_write_failure_caught items path st w :
  items ≠ [] →
  os_makedirs B (dirname path) (world st) = (Ret tt, w) →
  ∃ st', save_to_csv B items path st = (Ret tt, st').
Proof.
  intros Hne Hmk. unfold save_to_csv. rewrite bool_decide_eq_false_2 by done.
  run. rewrite Hmk. simpl.
  destruct (to_csv B path items w) as [[[]|e] w']; simpl; eauto.
Qed.

(** The directory is made before the [try]: a failure of [os.makedirs]
    leaves [save_to_csv] as an exception, with nothing printed. *)
Lemma save_to_csv_makedirs_failure items path st e w :
  items ≠ [] →
  os_makedirs B (dirname path) (world st) = (Raise e, w) →
  save_to_csv B items path st
  = (Raise e, {| world := w;
                 trace := trace st ++ [call_makedirs (dirname path)];
                 results := results st |}).
Proof.
  intros Hne Hmk. unfold save_to_csv. rewrite bool_decide_eq_false_2 by done.
  run. by rewrite Hmk.
Qed.

End Exporter.

(** ** The script on concrete answers *)

Example dirname_examples :
  dirname (lit "data/teams_list.csv") = lit "data"
  ∧ dirname (lit "teams_list.csv") = []
  ∧ dirname (lit "/teams.csv") = lit "/"
  ∧ dirname (lit "out//run/teams.csv") = lit "out//run".
Proof. repeat split; reflexivity. Qed.

(** Two names, the second unknown to the API: one record. *)
Example process_two_teams :
  (process_teams Scenario.backends Scripted.translator_only
     [lit "Arsenal"; lit "Nowhere"] default_base_url default_delay Scripted.start).1
  = Ret [Scenario.arsenal_record].
Proof. vm_compute. reflexivity. Qed.

(** C2: the code lets a failure to create the output directory escape.
    For a path without a directory part, [dirname] is the empty string,
    [os.makedirs] raises on it, and [save_to_csv] ends with that exception:
    the only event is the call, nothing is printed. *)
Theorem save_to_csv_makedirs_failure_escapes :
  save_to_csv Scenario.backends [Scenario.arsenal_record] (lit "teams_list.csv")
    Scripted.start
  = (Raise (Exception "FileNotFoundError"
              (lit "[Errno 2] No such file or directory: ''")),
     {| world := tt; trace := [call_makedirs []]; results := [] |}).
Proof. vm_compute. reflexivity. Qed.

(** C4 on the answer for Arsenal, whose stadium is null. *)
Lemma record_fields_from_api_witness :
  ∃ st' record,
    process_team Scenario.backends Scripted.no_capability default_base_url default_delay
      (lit "Arsenal") Scripted.start = (Ret tt, st')
    ∧ results st' = results Scripted.start ++ [record]
    ∧ Equipo record = default (JStr (lit "N/A")) (Scenario.arsenal !! lit "strTeam")
    ∧ Deporte record = default (JStr (lit "N/A")) (Scenario.arsenal !! lit "strSport")
    ∧ Liga record = default (JStr (lit "N/A")) (Scenario.arsenal !! lit "strLeague")
    ∧ Ano_de_fundacion record
      = default (JStr (lit "N/A")) (Scenario.arsenal !! lit "intFormedYear")
    ∧ Estadio record = default (JStr (lit "N/A")) (Scenario.arsenal !! lit "strStadium").
Proof.
  eapply (record_fields_from_api Scenario.backends Scripted.no_capability
            default_base_url default_delay (lit "Arsenal") Scripted.start).
  - reflexivity.
  - reflexivity.
  - reflexivity.
  - vm_compute. reflexivity.
  - vm_compute. reflexivity.
  - by vm_compute.
Defined.

Example process_two_teams_trace :
  trace (process_teams Scenario.backends Scripted.translator_only
           [lit "Arsenal"; lit "Nowhere"] default_base_url default_delay Scripted.start).2
  = [ call_get (lit "https://www.thesportsdb.com/api/v1/json/123/searchteams.php?t=Arsenal") 10;
      call_translate (lit "Arsenal Football Club is a club.") (lit "es");
      call_textrank (lit "El Arsenal es un club.") 4;
      call_sleep default_delay;
      call_get (lit "https://www.thesportsdb.com/api/v1/json/123/searchteams.php?t=Nowhere") 10;
      print_line (lit "No data for team 'Nowhere'. Skipping.") ].
Proof. vm_compute. reflexivity. Qed.

(** The pause comes after the append: when [time.sleep] raises, the
    record stays and the loop goes on. *)
Example process_team_failing_sleep :
  let B := Scripted.backends (Ret (lit "El Arsenal es un club."))
             (Raise Scripted.unreachable) (Ret [lit "El Arsenal es un club."])
             Scenario.api
             (Raise (Exception "ValueError" (lit "sleep length must be non-negative")))
             Scenario.makedirs (Ret tt) in
  (process_teams B Scripted.translator_only [lit "Arsenal"] default_base_url (- 1 # 2)%Q
     Scripted.start).1
  = Ret [Scenario.arsenal_record].
Proof. vm_compute. reflexivity. Qed.

(** With the directory in place, the rows are written and the line is
    printed; a failing write is printed and swallowed. *)
Example save_to_csv_default_path :
  save_to_csv Scenario.backends [Scenario.arsenal_record] default_path Scripted.start
  = (Ret tt,
     {| world := tt;
        trace := [ call_makedirs (lit "data");
                   call_to_csv default_path [Scenario.arsenal_record];
                   print_line (lit "Saved CSV to data/teams_list.csv (1 rows).") ];
        results := [] |}).
Proof. vm_compute. reflexivity. Qed.

Example save_to_csv_failing_write :
  let B := Scripted.backends (Raise Scripted.unreachable) (Raise Scripted.unreachable)
             (Raise Scripted.unreachable) Scenario.api (Ret tt) Scenario.makedirs
             (Raise (Exception "PermissionError" (lit "[Errno 13] Permission denied"))) in
  save_to_csv B [Scenario.arsenal_record] default_path Scripted.start
  = (Ret tt,
     {| world := tt;
        trace := [ call_makedirs (lit "data");
                   call_to_csv default_path [Scenario.arsenal_record];
                   print_line (lit "Error saving CSV: [Errno 13] Permission denied") ];
        results := [] |}).
Proof. vm_compute. reflexivity. Qed.

(** C5 on three names, the second unknown to the API: the list
    returned is the records of the first and of the third. *)
Lemma process_teams_skips_locally_witness :
  ∃ (kept1 kept2 : list (pystr * TeamRecord)) st',
    process_teams Scenario.backends Scripted.translator_only
      ([lit "Arsenal"] ++ lit "Nowhere" :: [lit "Arsenal"]) default_base_url default_delay
      Scripted.start
    = (Ret ((kept1 ++ kept2).*2), st').
Proof.
  destruct (for_each_loop_run Scenario.backends Scripted.translator_only
              default_base_url default_delay [lit "Arsenal"] (fresh Scripted.start))
    as (kept1 & st1 & _ & Hloop1).
  destruct (proj1 (proj2 (process_teams_skips_locally Scenario.backends
                            Scripted.translator_only default_base_url default_delay))
              [lit "Arsenal"] (lit "Nowhere") [lit "Arsenal"] Scripted.start kept1 st1 Hloop1)
    as (st2 & kept2 & st' & _ & _ & _ & Hrun).
  { eapply no_team_match; [reflexivity|reflexivity|by vm_compute]. }
  by exists kept1, kept2, st'.
Defined.

Example process_three_teams :
  (process_teams Scenario.backends Scripted.translator_only
     [lit "Arsenal"; lit "Nowhere"; lit "Arsenal"] default_base_url default_delay
     Scripted.start).1
  = Ret [Scenario.arsenal_record; Scenario.arsenal_record].
Proof. vm_compute. reflexivity. Qed.

(** With every translation and summary backend raising, Arsenal is
    recorded all the same, with the English description and the fallback
    summary. *)
Example process_team_silent_backends :
  (process_teams Scenario.silent_backends Scripted.full_capability [lit "Arsenal"]
     default_base_url default_delay Scripted.start).1
  = Ret [Scenario.arsenal_fallback_record].
Proof. vm_compute. reflexivity. Qed.

(** C5 as stated fails: an exception of the translation and summary
    backends does not exclude the team.  With all three raising on every
    call, the iteration for Arsenal still appends a record. *)
Lemma process_teams_backend_failure_counterexample :
  ¬ (∀ (B : Backends unit) G base_url delay team st,
       (∀ text dest w, ∃ e, (googletrans_translate B text dest w).1 = Raise e) →
       (∀ req w, ∃ e, (chat_completions_create B req w).1 = Raise e) →
       (∀ text n w, ∃ e, (text_rank B text n w).1 = Raise e) →
       ∃ st', process_team B G base_url delay team st = (Ret tt, st')
              ∧ results st' = results st).
Proof.
  intros H.
  destruct (H Scenario.silent_backends Scripted.full_capability default_base_url
              default_delay (lit "Arsenal") Scripted.start)
    as (st' & Hrun & Hres); [intros; by eexists..|].
  vm_compute in Hrun. injection Hrun as <-. vm_compute in Hres. discriminate Hres.
Qed.

(** ** Traces: which libraries are called, and how often *)

Section Kinds.

Implicit Types (k : kind) (ks : list kind) (evs : list event).

Lemma kind_eqb_eq k1 k2 : kind_eqb k1 k2 = true → k1 = k2.
Proof. by destruct k1, k2. Qed.

Lemma of_kind_app k evs1 evs2 :
  of_kind k (evs1 ++ evs2) = of_kind k evs1 ++ of_kind k evs2.
Proof.
  induction evs1 as [|ev evs1 IH]; [done|]. simpl.
  destruct (kind_eqb _ _); simpl; by rewrite IH.
Qed.

Lemma only_app ks evs1 evs2 : only ks evs1 → only ks evs2 → only ks (evs1 ++ evs2).
Proof. intros H1 H2. apply Forall_app. by split. Qed.

Lemma only_mono ks ks' evs :
  (∀ k, existsb (kind_eqb k) ks = true → existsb (kind_eqb k) ks' = true) →
  only ks evs → only ks' evs.
Proof. intros Hsub Hall. eapply Forall_impl; [exact Hall|]. intros ev. apply Hsub. Qed.

(** Events of a kind that is not among [ks] do not occur. *)
Lemma only_of_kind_nil ks k evs :
  only ks evs → existsb (kind_eqb k) ks = false → of_kind k evs = [].
Proof.
  intros Hall Hk. induction Hall as [|ev evs Hev _ IH]; [done|]. simpl.
  destruct (kind_eqb (kind_of ev) k) eqn:Heq; [|done].
  apply kind_eqb_eq in Heq. subst k. congruence.
Qed.

End Kinds.

(** Close a goal [trace st' = trace st ++ ?evs] on a concrete run. *)
Ltac trace_eq :=
  simpl; rewrite <- ?app_assoc; first [reflexivity | symmetry; apply app_nil_r].

(** Close a goal [∃ r st' evs, (Ret _, _) = (Ret r, st') ∧ trace st' =
    trace st ++ evs ∧ ...] on a concrete run. *)
Ltac events_done :=
  do 3 eexists; split; [reflexivity|]; split; [trace_eq|];
  simpl; repeat split; try done; try (by repeat constructor); try (simpl; lia).

Section Traces.
Context {World : Type} (B : Backends World) (G : Globals).

Implicit Types (text dest : pystr) (wl : Z) (st : state World).

(** What [translate_text] does to the trace: prints and at most one call
    to each translation backend, the local one only when it is available, the
    AI only when it is configured. *)
Lemma translate_text_events text dest st :
  ∃ s st' evs,
    translate_text B G text dest st = (Ret s, st')
    ∧ trace st' = trace st ++ evs
    ∧ results st' = results st
    ∧ only [KPrint; KTranslate; KChat] evs
    ∧ (length (of_kind KTranslate evs) ≤ 1)%nat
    ∧ (length (of_kind KChat evs) ≤ 1)%nat
    ∧ (_translator_available G = false → of_kind KTranslate evs = [])
    ∧ (¬ ai_enabled G → of_kind KChat evs = []).
Proof.
  unfold translate_text. case_bool_decide as Hempty; [events_done|].
  run. destruct (_translator_available G) eqn:Hav; simpl.
  - destruct (googletrans_translate B text dest (world st)) as [[t|e] w]; simpl;
      [events_done|].
    destruct (decide (ai_enabled G)) as [Hon|Hoff].
    + rewrite ai_test_true by done. simpl.
      destruct (chat_completions_create B _ w) as [[choices|e'] w']; simpl;
        [|events_done].
      destruct (first_content_stripped choices); simpl; events_done.
    + rewrite ai_test_false by done. simpl. events_done.
  - destruct (decide (ai_enabled G)) as [Hon|Hoff].
    + rewrite ai_test_true by done. simpl.
      destruct (chat_completions_create B _ (world st)) as [[choices|e'] w']; simpl;
        [|events_done].
      destruct (first_content_stripped choices); simpl; events_done.
    + rewrite ai_test_false by done. simpl. events_done.
Qed.

(** What [summarise_with_ai] does to the trace: nothing when the AI is
    not configured or the text is blank, one request otherwise, and a printed
    line when the attempt fails. *)
Lemma summarise_with_ai_events text wl st :
  ∃ o st' evs,
    summarise_with_ai B G text wl st = (Ret o, st')
    ∧ trace st' = trace st ++ evs
    ∧ results st' = results st
    ∧ only [KPrint; KChat] evs
    ∧ (length (of_kind KChat evs) ≤ 1)%nat
    ∧ (¬ ai_enabled G ∨ strip text = [] → evs = [] ∧ world st' = world st)
    ∧ (∀ s, o = Some s → evs = [call_chat (summary_request text wl)]).
Proof.
  destruct (decide (ai_enabled G)) as [Hon|Hoff];
    [|rewrite summarise_with_ai_disabled by done; events_done].
  destruct (decide (strip text = [])) as [Hb|Hne];
    [rewrite summarise_with_ai_blank by done; events_done|].
  assert (¬ (¬ ai_enabled G ∨ strip text = [])) as Hnot by (by intros [|]).
  unfold summarise_with_ai. destruct Hon as [Huse Hclient].
  rewrite Huse, (bool_decide_eq_false_2 (ai_client G = None)) by done. simpl.
  rewrite blank_test_false by done. run.
  destruct (chat_completions_create B _ (world st)) as [[choices|e] w]; simpl.
  - destruct (first_content_stripped choices) as [summary|e]; simpl.
    + destruct (_ >? _); events_done.
    + destruct (_ || _); events_done.
  - destruct (_ || _); events_done.
Qed.

(** What [summarise_text_rank] does to the trace: nothing when the text
    is blank, one call to the library otherwise, and a printed line when it
    fails. *)
Lemma summarise_text_rank_events text n wl st :
  ∃ s st' evs,
    summarise_text_rank B text n wl st = (Ret s, st')
    ∧ trace st' = trace st ++ evs
    ∧ results st' = results st
    ∧ only [KPrint; KTextRank] evs
    ∧ (length (of_kind KTextRank evs) ≤ 1)%nat
    ∧ (strip text = [] → evs = [] ∧ world st' = world st ∧ s = NO_SUMMARY).
Proof.
  destruct (decide (strip text = [])) as [Hb|Hne];
    [rewrite summarise_text_rank_blank by done; events_done|].
  unfold summarise_text_rank. rewrite blank_test_false by done. run.
  destruct (text_rank B text n (world st)) as [[sentences|e] w]; simpl.
  - destruct (_ >? _); events_done.
  - events_done.
Qed.

(** The two together, as [process_teams] chains them. *)
Lemma summarise_events name text wl st :
  ∃ s st' evs,
    summarise B G name text wl st = (Ret s, st')
    ∧ trace st' = trace st ++ evs
    ∧ results st' = results st
    ∧ only [KPrint; KChat; KTextRank] evs
    ∧ (length (of_kind KChat evs) ≤ 1)%nat
    ∧ (¬ ai_enabled G → of_kind KChat evs = [])
    ∧ (strip text = [] → only [KPrint] evs ∧ world st' = world st ∧ s = NO_SUMMARY)
    ∧ (length (of_kind KTextRank evs) ≤ 1)%nat.
Proof.
  unfold summarise. run.
  destruct (summarise_with_ai_events text wl st)
    as (o & st1 & evs1 & Hrun1 & Htr1 & Hres1 & Honly1 & Hlen1 & Hoff1 & Hsome1).
  assert (only [KPrint; KChat; KTextRank] evs1) as Honly1'.
  { eapply only_mono; [|exact Honly1]. by intros []. }
  destruct (USE_OPENAI G) eqn:Huse.
  - rewrite Hrun1. destruct o as [s|]; simpl.
    + exists s, st1, evs1.
      split; [done|]. split; [done|]. split; [done|]. split; [done|].
      split; [done|]. split; [|split].
      * intros Hoff. destruct (Hoff1 (or_introl Hoff)) as [-> _]. done.
      * intros Hb. destruct (Hoff1 (or_intror Hb)) as [Hnil _].
        rewrite (Hsome1 s eq_refl) in Hnil. done.
      * rewrite (only_of_kind_nil [KPrint; KChat] KTextRank evs1) by done.
        simpl. lia.
    + match goal with
      | |- context [summarise_text_rank B text 4 wl ?st2] =>
          destruct (summarise_text_rank_events text 4 wl st2)
            as (s & st' & evs2 & -> & Htr2 & Hres2 & Honly2 & Hlen2 & Hblank2)
      end.
      simpl in *.
      exists s, st',
        (evs1 ++ [print_line (lit "Falling back to TextRank for team: " ++ str_of B name)]
         ++ evs2).
      assert (of_kind KChat evs2 = []) as Hchat2.
      { by eapply only_of_kind_nil. }
      split; [done|]. split; [by rewrite Htr2, Htr1, <- !app_assoc|].
      split; [congruence|]. split.
      { apply only_app; [done|]. apply only_app; [by repeat constructor|].
        eapply only_mono; [|exact Honly2]. by intros []. }
      split.
      { rewrite !of_kind_app, Hchat2, !length_app. simpl. lia. }
      split.
      { intros Hoff. destruct (Hoff1 (or_introl Hoff)) as [-> _].
        rewrite !of_kind_app, Hchat2. done. }
      split.
      { intros Hb. destruct (Hoff1 (or_intror Hb)) as [-> Hw].
        destruct (Hblank2 Hb) as (-> & Hw2 & ->).
        split; [by repeat constructor|]. split; [congruence|done]. }
      rewrite !of_kind_app, !length_app.
      rewrite (only_of_kind_nil [KPrint; KChat] KTextRank evs1) by done.
      simpl. lia.
  - destruct (summarise_text_rank_events text 4 wl st)
      as (s & st' & evs2 & -> & Htr2 & Hres2 & Honly2 & Hlen2 & Hblank2).
    assert (of_kind KChat evs2 = []) as Hchat2.
    { by eapply only_of_kind_nil. }
    exists s, st', evs2. split; [done|]. split; [done|]. split; [done|]. split.
    { eapply only_mono; [|exact Honly2]. by intros []. }
    split; [rewrite Hchat2; simpl; lia|]. split; [done|].
    split; [|done].
    intros Hb. destruct (Hblank2 Hb) as (-> & Hw2 & ->).
    split; [constructor|done].
Qed.

End Traces.

Section LoopTraces.
Context {World : Type} (B : Backends World) (G : Globals).
Context (base_url : pystr) (delay_between_calls : Q).

Implicit Types (team : pystr) (teams : list pystr) (st : state World).

(** Close the goal of [process_team_events] on an iteration that skips. *)
Ltac skip_done :=
  do 2 eexists; split; [reflexivity|]; split; [trace_eq|];
  simpl; split; [done|by eexists].

Opaque lit.

(** One iteration, event by event: the request first (none when the name
    cannot be quoted); then, for a team that is found, the events of the
    translator and of the summariser, the pause, and at most a printed line;
    for a team that is not, one printed line and nothing else. *)
Lemma process_team_events team st :
  ∃ st' evs,
    process_team B G base_url delay_between_calls team st = (Ret tt, st')
    ∧ trace st' = trace st ++ request_of B base_url team ++ evs
    ∧ match team_found (lookup_answer B base_url team (world st)) with
      | Some (team_info, description_en) =>
          ∃ r tevs tail,
            results st' = results st ++ [r]
            ∧ (Resumen r = NO_SUMMARY ∨ ∃ c, Resumen r = cap_words c 50)
            ∧ evs = tevs ++ call_sleep delay_between_calls :: tail
            ∧ only [KPrint; KTranslate; KChat; KTextRank] tevs
            ∧ only [KPrint] tail
      | None => results st' = results st ∧ ∃ line, evs = [print_line line]
      end.
Proof.
  unfold process_team, lookup_answer, request_of. run.
  destruct (requote_uri B team) as [quoted|e]; simpl; [|skip_done].
  destruct (requests_get B _ 10 (world st)) as [[r|e] w]; simpl; [|skip_done].
  destruct r as [status body]; simpl.
  destruct status as [[]|e]; simpl; [|skip_done].
  destruct body as [data|e]; simpl; [|skip_done].
  destruct data as [|b|z|q|s|items|data]; simpl; try skip_done.
  1: { destruct b; simpl; skip_done. }
  1-4: by destruct (negb _); simpl; skip_done.
  case_bool_decide as Hdata; simpl.
  { subst data. rewrite lookup_empty. skip_done. }
  destruct (data !! lit "teams") as [teams_value|] eqn:Hteams; simpl; [|skip_done].
  destruct teams_value as [|b|z|q|s|items|fields]; simpl; try skip_done.
  1: { destruct b; simpl; skip_done. }
  1-2: by destruct (negb _); simpl; skip_done.
  1: { destruct s; simpl; skip_done. }
  2: { destruct (negb _); simpl; skip_done. }
  destruct items as [|team_info items]; simpl; [skip_done|].
  destruct team_info as [|b|z|q|s|items'|team_info]; simpl; try skip_done.
  destruct (team_info !! lit "strDescriptionEN") as [description_en|] eqn:Hdesc;
    simpl; [|skip_done].
  destruct description_en as [|b|z|q|description_en|items'|fields]; simpl;
    try skip_done.
  1: { destruct b; simpl; skip_done. }
  1-2,4-5: by destruct (negb _); simpl; skip_done.
  case_bool_decide as Hempty; simpl.
  { subst. simpl. skip_done. }
  case_bool_decide as Hblank; simpl; [skip_done|].
  match goal with
  | |- context [translate_text B G ?t ?d ?s] =>
      destruct (translate_text_events B G t d s)
        as (description_es & st1 & evs1 & -> & Htr1 & Hres1 & Honly1 & _)
  end.
  match goal with
  | |- context [summarise B G ?n ?t ?l ?s] =>
      destruct (summarise_events B G n t l s)
        as (resumen & st2 & evs2 & Hrun2 & Htr2 & Hres2 & Honly2 & _);
      destruct (summarise_returns B G n t l s)
        as (resumen' & st2' & Hrun2' & _ & Hshape)
  end.
  rewrite Hrun2 in Hrun2'. injection Hrun2' as <- <-. rewrite Hrun2.
  simpl in *.
  assert (only [KPrint; KTranslate; KChat; KTextRank] (evs1 ++ evs2)) as Honly.
  { apply only_app; (eapply only_mono; [|eassumption]); by intros []. }
  destruct (time_sleep B delay_between_calls (world st2)) as [[[]|e] w']; simpl.
  - do 2 eexists. split; [reflexivity|]. split.
    { simpl. rewrite Htr2, Htr1, <- !app_assoc. simpl. reflexivity. }
    simpl. eexists _, (evs1 ++ evs2), [].
    split; [by rewrite Hres2, Hres1|]. split; [exact Hshape|].
    split; [by rewrite <- app_assoc|]. split; [done|constructor].
  - do 2 eexists. split; [reflexivity|]. split.
    { simpl. rewrite Htr2, Htr1, <- !app_assoc. simpl. reflexivity. }
    simpl. eexists _, (evs1 ++ evs2), [_].
    split; [by rewrite Hres2, Hres1|]. split; [exact Hshape|].
    split; [by rewrite <- app_assoc|]. split; [done|by repeat constructor].
Qed.

Transparent lit.

Lemma request_of_kinds team :
  of_kind KGet (request_of B base_url team) = request_of B base_url team
  ∧ of_kind KSleep (request_of B base_url team) = []
  ∧ only [KGet] (request_of B base_url team).
Proof.
  unfold request_of. destruct (requote_uri B team); simpl;
    repeat split; by repeat constructor.
Qed.

(** The loop, event by event. *)
Lemma for_each_events teams st :
  ∃ st' evs new,
    for_each teams (process_team B G base_url delay_between_calls) st = (Ret tt, st')
    ∧ trace st' = trace st ++ evs
    ∧ results st' = results st ++ new
    ∧ of_kind KGet evs = concat (request_of B base_url <$> teams)
    ∧ of_kind KSleep evs = replicate (length new) (call_sleep delay_between_calls)
    ∧ Forall capped_summary new
    ∧ only [KPrint; KTranslate; KChat; KTextRank; KGet; KSleep] evs
    ∧ (new = [] → only [KPrint; KGet] evs).
Proof.
  revert st. induction teams as [|team teams IH]; intros st.
  { exists st, [], []. simpl. rewrite !app_nil_r.
    repeat split; by constructor. }
  destruct (process_team_events team st) as (st1 & evs1 & Hrun & Htr1 & Hfound).
  destruct (IH st1) as (st' & evs & new & Hloop & Htr & Hres & Hget & Hsleep
                        & Hcap & Honly & Hnone).
  destruct (request_of_kinds team) as (Hrg & Hrs & Hro).
  rewrite (for_each_cons _ _ _ _ _ Hrun).
  destruct (team_found _) as [[team_info description_en]|] eqn:Hf.
  - destruct Hfound as (r & tevs & tail & Hres1 & Hshape & -> & Htevs & Htail).
    assert (of_kind KGet tevs = [] ∧ of_kind KSleep tevs = []
            ∧ of_kind KGet tail = [] ∧ of_kind KSleep tail = [])
      as (Hg1 & Hs1 & Hg2 & Hs2).
    { repeat split; by eapply only_of_kind_nil. }
    exists st',
      (request_of B base_url team
       ++ (tevs ++ call_sleep delay_between_calls :: tail) ++ evs),
      (r :: new).
    split; [done|].
    split; [rewrite Htr, Htr1; by repeat (rewrite <- app_assoc; simpl)|].
    split; [by rewrite Hres, Hres1, <- app_assoc|].
    split.
    { repeat (rewrite ?of_kind_app; simpl). by rewrite Hrg, Hg1, Hg2, Hget. }
    split.
    { repeat (rewrite ?of_kind_app; simpl). by rewrite Hrs, Hs1, Hs2, Hsleep. }
    split; [by constructor|].
    split; [|done].
    apply only_app; [eapply only_mono; [|exact Hro]; by intros []|].
    apply only_app; [|done].
    apply only_app; [eapply only_mono; [|exact Htevs]; by intros []|].
    constructor; [done|]. eapply only_mono; [|exact Htail]. by intros [].
  - destruct Hfound as (Hres1 & line & ->).
    exists st', (request_of B base_url team ++ [print_line line] ++ evs), new.
    split; [done|].
    split; [rewrite Htr, Htr1; by repeat (rewrite <- app_assoc; simpl)|].
    split; [by rewrite Hres, Hres1|].
    split; [repeat (rewrite ?of_kind_app; simpl); by rewrite Hrg, Hget|].
    split; [repeat (rewrite ?of_kind_app; simpl); by rewrite Hrs, Hsleep|].
    split; [done|].
    split.
    { apply only_app; [eapply only_mono; [|exact Hro]; by intros []|].
      by repeat constructor. }
    intros Hnew. specialize (Hnone Hnew).
    apply only_app; [eapply only_mono; [|exact Hro]; by intros []|].
    by repeat constructor.
Qed.

Lemma process_teams_events teams st :
  ∃ rs st' evs,
    process_teams B G teams base_url delay_between_calls st = (Ret rs, st')
    ∧ trace st' = trace st ++ evs
    ∧ of_kind KGet evs = concat (request_of B base_url <$> teams)
    ∧ of_kind KSleep evs = replicate (length rs) (call_sleep delay_between_calls)
    ∧ Forall capped_summary rs
    ∧ only [KPrint; KTranslate; KChat; KTextRank; KGet; KSleep] evs
    ∧ (rs = [] → only [KPrint; KGet] evs).
Proof.
  destruct (for_each_events teams (fresh st))
    as (st' & evs & new & Hloop & Htr & Hres & Hrest).
  exists new, st', evs. split; [|by split].
  unfold process_teams. run. fold (fresh st). rewrite Hloop. simpl.
  by rewrite Hres.
Qed.

End LoopTraces.

(** ** Further properties of the translator and the summariser *)

Section Policies.
Context {World : Type} (B : Backends World) (G : Globals).

Implicit Types (text dest : pystr) (wl : Z) (st : state World).

(** X3: when the AI backend is not configured, neither the translator
    nor the summariser sends it a request, whatever the text. *)
Theorem ai_never_called_when_unconfigured :
  ¬ ai_enabled G →
  (∀ text dest st, ∃ s st' evs,
     translate_text B G text dest st = (Ret s, st')
     ∧ trace st' = trace st ++ evs ∧ of_kind KChat evs = [])
  ∧ (∀ name text wl st, ∃ s st' evs,
       summarise B G name text wl st = (Ret s, st')
       ∧ trace st' = trace st ++ evs ∧ of_kind KChat evs = []).
Proof.
  intros Hoff. split.
  - intros text dest st.
    destruct (translate_text_events B G text dest st)
      as (s & st' & evs & Hrun & Htr & _ & _ & _ & _ & _ & Hchat).
    exists s, st', evs. auto.
  - intros name text wl st.
    destruct (summarise_events B G name text wl st)
      as (s & st' & evs & Hrun & Htr & _ & _ & _ & Hchat & _).
    exists s, st', evs. auto.
Qed.

(** X4: on a blank text the summariser returns "Resumen no disponible"
    without calling the AI or TextRank: the world is untouched and at most
    lines are printed. *)
Theorem summarise_blank_text name text wl st :
  strip text = [] →
  ∃ st' evs,
    summarise B G name text wl st = (Ret NO_SUMMARY, st')
    ∧ world st' = world st
    ∧ trace st' = trace st ++ evs
    ∧ only [KPrint] evs.
Proof.
  intros Hb.
  destruct (summarise_events B G name text wl st)
    as (s & st' & evs & Hrun & Htr & _ & _ & _ & _ & Hblank & _).
  destruct (Hblank Hb) as (Honly & Hw & ->).
  by exists st', evs.
Qed.

(** X5: when the local translation succeeds its text is the result, and
    the only event is that one call: the AI is not asked and nothing is
    printed. *)
Theorem translate_text_local_success text dest st translated w :
  text ≠ [] →
  _translator_available G = true →
  googletrans_translate B text dest (world st) = (Ret translated, w) →
  translate_text B G text dest st
  = (Ret translated,
     {| world := w; trace := trace st ++ [call_translate text dest];
        results := results st |}).
Proof.
  intros Hne Hav Hcall. unfold translate_text.
  rewrite bool_decide_eq_false_2 by done. run.
  by rewrite Hav, Hcall.
Qed.

(** X6: when the local translation is unavailable or fails and the
    configured AI answers with a text, the translator returns that text
    stripped of surrounding whitespace. *)
Theorem translate_text_ai_fallback text dest st answer others :
  text ≠ [] →
  local_translation_fails B G text dest (world st) →
  ai_enabled G →
  (chat_completions_create B (translation_request text)
     (world_after_local B G text dest (world st))).1 = Ret (Some answer :: others) →
  ∃ st', translate_text B G text dest st = (Ret (strip answer), st').
Proof.
  intros Hne Hlocal Hon Hchat. unfold translate_text.
  rewrite bool_decide_eq_false_2 by done.
  unfold world_after_local in Hchat. unfold local_translation_fails in Hlocal.
  run. rewrite ai_test_true by done.
  destruct (_translator_available G); simpl.
  - destruct Hlocal as [|[e He]]; [done|].
    destruct (googletrans_translate B text dest (world st)) as [o w].
    simpl in He, Hchat. subst o. simpl.
    destruct (chat_completions_create B _ w) as [o' w']. simpl in Hchat. subst o'.
    simpl. by eexists.
  - destruct (chat_completions_create B _ (world st)) as [o' w']. simpl in Hchat.
    subst o'. simpl. by eexists.
Qed.

(** X7: when the configured AI answers with a text, the summary is that
    text, stripped and cut at the word limit, and the only event is the
    request: TextRank is not called. *)
Theorem summarise_prefers_ai name text wl st answer others w :
  ai_enabled G → strip text ≠ [] →
  chat_completions_create B (summary_request text wl) (world st)
  = (Ret (Some answer :: others), w) →
  summarise B G name text wl st
  = (Ret (cap_words (strip answer) wl),
     {| world := w; trace := trace st ++ [call_chat (summary_request text wl)];
        results := results st |}).
Proof.
  intros [Huse Hclient] Hne Hchat. unfold summarise, summarise_with_ai.
  rewrite Huse, (bool_decide_eq_false_2 (ai_client G = None)) by done. simpl.
  rewrite blank_test_false by done. run. rewrite Hchat. simpl.
  unfold cap_words. by destruct (_ >? _).
Qed.

(** X8: a candidate summary that is within the word limit is returned
    whole, as the backend gave it up to surrounding whitespace: nothing is
    cut and no marker is added; in the AI function as in the TextRank
    function. *)
Theorem summary_within_limit_unchanged :
  (∀ text wl st answer others,
     ai_enabled G → strip text ≠ [] →
     (chat_completions_create B (summary_request text wl) (world st)).1
     = Ret (Some answer :: others) →
     word_count (strip answer) ≤ wl →
     ∃ st', summarise_with_ai B G text wl st = (Ret (Some (strip answer)), st'))
  ∧ (∀ text n wl st sentences,
       strip text ≠ [] →
       (text_rank B text n (world st)).1 = Ret sentences →
       word_count (strip (join (lit " ") sentences)) ≤ wl →
       ∃ st', summarise_text_rank B text n wl st
              = (Ret (strip (join (lit " ") sentences)), st')).
Proof.
  split.
  - intros text wl st answer others Hon Hne Hchat Hle.
    destruct (summarise_with_ai_run B G text wl st) as (st' & Hrun & _); [done..|].
    rewrite Hchat in Hrun. simpl in Hrun. rewrite cap_words_whole in Hrun by done.
    eauto.
  - intros text n wl st sentences Hne Hrank Hle.
    destruct (summarise_text_rank_run B text n wl st) as (st' & Hrun & _); [done|].
    rewrite Hrank in Hrun. simpl in Hrun. rewrite cap_words_whole in Hrun by done.
    eauto.
Qed.

(** X19: the translator never retries: it calls the local translation
    backend at most once and the AI at most once, and nothing else. *)
Theorem translate_text_calls_each_backend_at_most_once text dest st :
  ∃ s st' evs,
    translate_text B G text dest st = (Ret s, st')
    ∧ trace st' = trace st ++ evs
    ∧ only [KPrint; KTranslate; KChat] evs
    ∧ (length (of_kind KTranslate evs) ≤ 1)%nat
    ∧ (length (of_kind KChat evs) ≤ 1)%nat.
Proof.
  destruct (translate_text_events B G text dest st)
    as (s & st' & evs & Hrun & Htr & _ & Honly & Hlocal & Hchat & _).
  by exists s, st', evs.
Qed.

(** X20: the summariser never retries: it sends the AI at most one
    request and calls TextRank at most once, and nothing else. *)
Theorem summarise_calls_each_backend_at_most_once name text wl st :
  ∃ s st' evs,
    summarise B G name text wl st = (Ret s, st')
    ∧ trace st' = trace st ++ evs
    ∧ only [KPrint; KChat; KTextRank] evs
    ∧ (length (of_kind KChat evs) ≤ 1)%nat
    ∧ (length (of_kind KTextRank evs) ≤ 1)%nat.
Proof.
  destruct (summarise_events B G name text wl st)
    as (s & st' & evs & Hrun & Htr & _ & Honly & Hchat & _ & _ & Hrank).
  by exists s, st', evs.
Qed.

End Policies.

(** ** Further properties of the orchestrator *)

Section Pipeline.
Context {World : Type} (B : Backends World) (G : Globals).
Context (base_url : pystr) (delay_between_calls : Q).

Implicit Types (team : pystr) (teams : list pystr) (st : state World).

Lemma requests_of_quotable teams :
  Forall (λ team, ∃ quoted, requote_uri B team = Ret quoted) teams →
  length (concat (request_of B base_url <$> teams)) = length teams.
Proof.
  induction 1 as [|team teams [quoted Hq] _ IH]; [done|].
  rewrite fmap_cons. simpl concat. rewrite length_app, IH.
  unfold request_of. by rewrite Hq.
Qed.

(** X9: the requests [process_teams] sends are, in the order of the
    list, one for each name that [requote_uri] accepts, to the search URL of
    the quoted name with a timeout of 10, and none for a name it rejects (the
    exception is caught and the name skipped); so when every name can be
    quoted there are exactly as many requests as names.  No name is asked
    twice, whatever the answers. *)
Theorem process_teams_one_request_per_name teams st :
  ∃ rs st' evs,
    process_teams B G teams base_url delay_between_calls st = (Ret rs, st')
    ∧ trace st' = trace st ++ evs
    ∧ of_kind KGet evs
      = concat ((λ team,
                   match requote_uri B team with
                   | Ret quoted =>
                       [call_get (base_url ++ lit "/searchteams.php?t=" ++ quoted) 10]
                   | Raise _ => []
                   end) <$> teams)
    ∧ (Forall (λ team, ∃ quoted, requote_uri B team = Ret quoted) teams →
       length (of_kind KGet evs) = length teams).
Proof.
  destruct (process_teams_events B G base_url delay_between_calls teams st)
    as (rs & st' & evs & Hrun & Htr & Hget & _).
  exists rs, st', evs. split; [done|]. split; [done|]. split; [exact Hget|].
  intros Hall. rewrite Hget. by apply requests_of_quotable.
Qed.

(** X10: [process_teams] pauses exactly once for each record it
    returns, for the given delay: a skipped team causes no pause. *)
Theorem process_teams_pauses_once_per_record teams st :
  ∃ rs st' evs,
    process_teams B G teams base_url delay_between_calls st = (Ret rs, st')
    ∧ trace st' = trace st ++ evs
    ∧ of_kind KSleep evs = replicate (length rs) (call_sleep delay_between_calls).
Proof.
  destruct (process_teams_events B G base_url delay_between_calls teams st)
    as (rs & st' & evs & Hrun & Htr & _ & Hsleep & _).
  by exists rs, st', evs.
Qed.

(** X11: the summary of every record [process_teams] returns has at
    most fifty whitespace-separated words. *)
Theorem process_teams_summaries_within_fifty_words teams st :
  ∃ rs st',
    process_teams B G teams base_url delay_between_calls st = (Ret rs, st')
    ∧ Forall (λ r, word_count (Resumen r) ≤ 50) rs.
Proof.
  destruct (process_teams_events B G base_url delay_between_calls teams st)
    as (rs & st' & evs & Hrun & _ & _ & _ & Hcap & _).
  exists rs, st'. split; [done|].
  eapply Forall_impl; [exact Hcap|]. intros r [->|[c ->]].
  - rewrite word_count_no_summary. lia.
  - apply cap_words_count. lia.
Qed.

(** X12: a skipped team costs one request and one printed line: no
    translation, no summary, no pause, and the results are untouched.  (The
    request is the one for the quoted name; a name that [requote_uri]
    rejects, itself a failed lookup, costs the printed line only.) *)
Theorem skipped_team_costs_one_request team st :
  skipped B base_url team (world st) →
  ∃ st' line,
    process_team B G base_url delay_between_calls team st = (Ret tt, st')
    ∧ trace st' = trace st ++ request_of B base_url team ++ [print_line line]
    ∧ (∀ quoted, requote_uri B team = Ret quoted →
       trace st' = trace st ++ [call_get (search_url base_url quoted) 10; print_line line])
    ∧ results st' = results st.
Proof.
  intros Hskip.
  destruct (process_team_events B G base_url delay_between_calls team st)
    as (st' & evs & Hrun & Htr & Hfound).
  rewrite (skipped_not_found _ _ _ _ Hskip) in Hfound.
  destruct Hfound as (Hres & line & ->). exists st', line.
  split; [done|]. split; [done|]. split; [|done].
  intros quoted Hq. unfold request_of in Htr. by rewrite Hq in Htr.
Qed.

(** X13: [process_teams] never touches the file system and calls
    nothing but the sports API, the translation and summary backends and
    the pause: no directory is made and no file written. *)
Theorem process_teams_writes_no_file teams st :
  ∃ rs st' evs,
    process_teams B G teams base_url delay_between_calls st = (Ret rs, st')
    ∧ trace st' = trace st ++ evs
    ∧ of_kind KMakedirs evs = []
    ∧ of_kind KToCsv evs = [].
Proof.
  destruct (process_teams_events B G base_url delay_between_calls teams st)
    as (rs & st' & evs & Hrun & Htr & _ & _ & _ & Honly & _).
  exists rs, st', evs. repeat split; [done..| |]; by eapply only_of_kind_nil.
Qed.

End Pipeline.

(** ** Further properties of the exporter and of the program *)

Section Program.
Context {World : Type} (B : Backends World) (G : Globals).

Implicit Types (items : list TeamRecord) (path : pystr) (st : state World).

(** X14: with records to save and a directory that can be made,
    [save_to_csv] returns normally whatever the writer does: it makes the
    directory of the path, calls the writer once with the path and all the
    records, and prints one line (success or error). *)
Theorem save_to_csv_writes_once items path st w :
  items ≠ [] →
  os_makedirs B (dirname path) (world st) = (Ret tt, w) →
  ∃ st' line,
    save_to_csv B items path st = (Ret tt, st')
    ∧ trace st' = trace st ++ [ call_makedirs (dirname path);
                                call_to_csv path items;
                                print_line line ].
Proof.
  intros Hne Hmk. unfold save_to_csv. rewrite bool_decide_eq_false_2 by done.
  run. rewrite Hmk. simpl.
  destruct (to_csv B path items w) as [[[]|e] w']; simpl;
    do 2 eexists; (split; [reflexivity|]); trace_eq.
Qed.

Lemma drop_while_all {A} (f : A → bool) (l : list A) :
  Forall (λ x, f x = true) l → drop_while f l = [].
Proof. induction 1 as [|x l Hx _ IH]; [done|]. simpl. by rewrite Hx. Qed.

Lemma drop_while_app_stop {A} (f : A → bool) (l1 : list A) x l2 :
  Forall (λ y, f y = true) l1 → f x = false →
  drop_while f (l1 ++ x :: l2) = x :: l2.
Proof.
  intros Hall Hx. induction Hall as [|y l1 Hy _ IH]; simpl.
  - by rewrite Hx.
  - by rewrite Hy.
Qed.

Lemma not_slash_test (c : N) : c ≠ slash → negb (c =? slash)%N = true.
Proof. intros Hc. apply negb_true_iff. by apply N.eqb_neq. Qed.

(** The directory of a path without "/" is the empty string. *)
Lemma dirname_without_slash path :
  Forall (λ c, c ≠ slash) path → dirname path = [].
Proof.
  intros Hno. unfold dirname.
  rewrite drop_while_all; [done|].
  apply Forall_reverse. eapply Forall_impl; [exact Hno|].
  intros c. apply not_slash_test.
Qed.

(** The directory of "dir/file", where the file name has no "/" and the
    directory does not end with "/", is the directory. *)
Lemma dirname_of_joined (dir : pystr) (c : N) (file : pystr) :
  c ≠ slash → Forall (λ c, c ≠ slash) file →
  dirname ((dir ++ [c]) ++ slash :: file) = dir ++ [c].
Proof.
  intros Hc Hfile. unfold dirname.
  rewrite reverse_app, reverse_cons, <- app_assoc. simpl.
  rewrite drop_while_app_stop; cycle 1.
  { apply Forall_reverse. eapply Forall_impl; [exact Hfile|].
    intros x. apply not_slash_test. }
  { by rewrite N.eqb_refl. }
  rewrite reverse_cons, reverse_involutive.
  assert (forallb (λ c0, (c0 =? slash)%N) ((dir ++ [c]) ++ [slash]) = false) as ->.
  { apply not_true_iff_false. rewrite forallb_forall. intros Hall.
    specialize (Hall c). rewrite N.eqb_eq in Hall. apply Hc, Hall.
    apply in_or_app. left. apply in_or_app. right. by left. }
  rewrite bool_decide_eq_false_2 by (by destruct dir).
  rewrite !reverse_app, !reverse_singleton. simpl.
  rewrite (proj2 (N.eqb_neq c slash) Hc).
  by rewrite reverse_cons, reverse_involutive.
Qed.

(** With records to save, the first thing [save_to_csv] does is to make
    the directory of the path. *)
Lemma save_to_csv_makes_dirname items path st :
  items ≠ [] →
  ∃ o st' evs,
    save_to_csv B items path st = (o, st')
    ∧ trace st' = trace st ++ call_makedirs (dirname path) :: evs.
Proof.
  intros Hne. unfold save_to_csv. rewrite bool_decide_eq_false_2 by done. run.
  destruct (os_makedirs B (dirname path) (world st)) as [[[]|e] w]; simpl.
  - destruct (to_csv B path items w) as [[[]|e] w']; simpl;
      do 3 eexists; (split; [reflexivity|]); trace_eq.
  - do 3 eexists. split; [reflexivity|]. trace_eq.
Qed.

(** X15: with records to save and a path that has no "/" (a bare file
    name), [save_to_csv] asks [os.makedirs] to make the empty path. *)
Theorem save_to_csv_bare_name_makes_empty_path items path st :
  items ≠ [] →
  Forall (λ c, c ≠ slash) path →
  ∃ o st' evs,
    save_to_csv B items path st = (o, st')
    ∧ trace st' = trace st ++ call_makedirs [] :: evs.
Proof.
  intros Hne Hno.
  destruct (save_to_csv_makes_dirname items path st Hne) as (o & st' & evs & Hrun & Htr).
  rewrite dirname_without_slash in Htr by done. by exists o, st', evs.
Qed.

(** X16: with records to save and a path "dir/file", where the file
    name has no "/" and the directory does not end with "/", [save_to_csv]
    asks [os.makedirs] to make exactly "dir". *)
Theorem save_to_csv_makes_parent_directory items (dir : pystr) (c : N) (file : pystr) st :
  items ≠ [] →
  c ≠ slash → Forall (λ c, c ≠ slash) file →
  ∃ o st' evs,
    save_to_csv B items ((dir ++ [c]) ++ slash :: file) st = (o, st')
    ∧ trace st' = trace st ++ call_makedirs (dir ++ [c]) :: evs.
Proof.
  intros Hne Hc Hfile.
  destruct (save_to_csv_makes_dirname items ((dir ++ [c]) ++ slash :: file) st Hne)
    as (o & st' & evs & Hrun & Htr).
  rewrite dirname_of_joined in Htr by done. by exists o, st', evs.
Qed.

(** X17: when [process_teams] returns no record in the run of the
    program (every name of the list is skipped), the program ends normally
    having made no directory and written no file: its only events are the
    requests and printed lines. *)
Theorem main_without_records_touches_no_file teams st :
  (process_teams B G teams default_base_url default_delay (announced G st)).1 = Ret [] →
  ∃ st' evs,
    main B G teams st = (Ret tt, st')
    ∧ trace st' = trace st ++ evs
    ∧ only [KPrint; KGet] evs.
Proof.
  intros Hnone. unfold main. unfold bind at 1. unfold print, emit.
  fold (announced G st). unfold bind.
  destruct (process_teams_events B G default_base_url default_delay teams (announced G st))
    as (rs & st1 & evs & Hrun & Htr & _ & _ & _ & _ & Hall).
  rewrite Hrun in Hnone |- *. simpl in Hnone. injection Hnone as ->.
  specialize (Hall eq_refl). simpl.
  do 2 eexists. split; [reflexivity|]. split.
  { simpl. rewrite Htr. unfold announced. simpl. rewrite <- !app_assoc. reflexivity. }
  apply only_app; [by repeat constructor|].
  apply only_app; [done|by repeat constructor].
Qed.

(** X18: when the directory "data" can be made, the program ends
    normally, whatever the sports API, the translation and summary backends,
    the pause and the writer do. *)
Theorem main_returns_when_directory_is_made teams st :
  (∀ w, ∃ w', os_makedirs B (lit "data") w = (Ret tt, w')) →
  ∃ st', main B G teams st = (Ret tt, st').
Proof.
  intros Hmk. unfold main. run.
  match goal with
  | |- context [process_teams B G teams default_base_url default_delay ?st0] =>
      destruct (process_teams_run B G default_base_url default_delay teams st0)
        as (kept & st1 & -> & _)
  end.
  destruct (decide (kept.*2 = [])) as [->|Hne]; [by eexists|].
  destruct (Hmk (world st1)) as [w' Hw'].
  by apply (save_to_csv_write_failure_caught B _ default_path st1 w').
Qed.

End Program.

(** ** The capability flags *)

(** X1: however the module is loaded, the two AI flags agree:
    [USE_OPENAI] is true exactly when [ai_client] is set, and then the client
    was built from the stripped key, which is not empty. *)
Theorem module_init_flags_agree googletrans getenv new_client :
  let G := (module_init googletrans getenv new_client).1 in
  (USE_OPENAI G = true ↔ ai_client G ≠ None)
  ∧ (ai_enabled G ↔ USE_OPENAI G = true)
  ∧ (∀ client, ai_client G = Some client →
       strip (default [] getenv) ≠ []
       ∧ new_client (strip (default [] getenv)) = Ret client).
Proof.
  unfold module_init, ai_enabled. case_bool_decide as Hkey; simpl.
  - repeat split; try done; by intros [].
  - destruct (new_client _) as [client|e] eqn:Hnew; simpl.
    + repeat split; try done. all: intros; by simplify_eq.
    + repeat split; try done; by intros [].
Qed.

(** X2: when OPENAI_API_KEY is unset, empty or blank, the AI is
    disabled, no client is built and nothing is printed, whatever the
    OpenAI library would do. *)
Theorem module_init_blank_key googletrans getenv new_client :
  strip (default [] getenv) = [] →
  ∃ available,
    module_init googletrans getenv new_client
    = ({| _translator_available := available; USE_OPENAI := false; ai_client := None |},
       []).
Proof.
  intros Hkey. unfold module_init.
  rewrite (bool_decide_eq_true_2 _ Hkey). simpl. by eexists.
Qed.

(** ** The further properties on concrete answers *)

(** X2 on a key of three spaces. *)
Lemma module_init_blank_key_witness :
  ∃ available,
    module_init (Ret tt) (Some (lit "   ")) (λ key, Ret (OpenAI_client key))
    = ({| _translator_available := available; USE_OPENAI := false; ai_client := None |},
       []).
Proof. apply module_init_blank_key. reflexivity. Defined.

Example module_init_with_key :
  module_init (Raise Scripted.unreachable) (Some (lit " sk-test ")) (λ key, Ret (OpenAI_client key))
  = ({| _translator_available := false; USE_OPENAI := true;
        ai_client := Some (OpenAI_client (lit "sk-test")) |}, []).
Proof. reflexivity. Qed.

(** X3 with googletrans only. *)
Lemma ai_never_called_when_unconfigured_witness :
  (∀ text dest st, ∃ s st' evs,
     translate_text Scripted.verbose Scripted.translator_only text dest st = (Ret s, st')
     ∧ trace st' = trace st ++ evs ∧ of_kind KChat evs = [])
  ∧ (∀ name text wl st, ∃ s st' evs,
       summarise Scripted.verbose Scripted.translator_only name text wl st = (Ret s, st')
       ∧ trace st' = trace st ++ evs ∧ of_kind KChat evs = []).
Proof.
  apply ai_never_called_when_unconfigured. by intros [? _].
Defined.

(** X4 on a text of three spaces, with every capability present. *)
Lemma summarise_blank_text_witness :
  ∃ st' evs,
    summarise Scripted.verbose Scripted.full_capability JNull (lit "   ") 50 Scripted.start
    = (Ret NO_SUMMARY, st')
    ∧ world st' = world Scripted.start
    ∧ trace st' = trace Scripted.start ++ evs
    ∧ only [KPrint] evs.
Proof. apply summarise_blank_text. reflexivity. Defined.

(** X5 with a local translation that answers. *)
Lemma translate_text_local_success_witness :
  translate_text Scripted.verbose Scripted.full_capability (lit "Arsenal is a club.")
    (lit "es") Scripted.start
  = (Ret (lit "El Arsenal es un club."),
     {| world := tt;
        trace := trace Scripted.start
                 ++ [call_translate (lit "Arsenal is a club.") (lit "es")];
        results := results Scripted.start |}).
Proof.
  apply translate_text_local_success; [done|reflexivity|reflexivity].
Defined.

(** X6 with a failing local translation and an AI that answers. *)
Lemma translate_text_ai_fallback_witness :
  ∃ st',
    translate_text
      (Scripted.backends (Raise Scripted.unreachable)
         (Ret [Some (lit "  El Arsenal es un club. ")]) (Raise Scripted.unreachable)
         (λ _, Raise Scripted.unreachable) (Ret tt) (λ _, Ret tt) (Ret tt))
      Scripted.full_capability (lit "Arsenal is a club.") (lit "es") Scripted.start
    = (Ret (strip (lit "  El Arsenal es un club. ")), st').
Proof.
  eapply translate_text_ai_fallback.
  - done.
  - right. by eexists.
  - by split.
  - reflexivity.
Defined.

(** X7 with an AI that answers sixty words, at a limit of 50. *)
Lemma summarise_prefers_ai_witness :
  summarise Scripted.verbose Scripted.full_capability JNull (lit "El Arsenal es un club.") 50
    Scripted.start
  = (Ret (cap_words (strip Scripted.sixty_words) 50),
     {| world := tt;
        trace := trace Scripted.start
                 ++ [call_chat (summary_request (lit "El Arsenal es un club.") 50)];
        results := results Scripted.start |}).
Proof.
  apply (summarise_prefers_ai Scripted.verbose Scripted.full_capability JNull
           (lit "El Arsenal es un club.") 50 Scripted.start Scripted.sixty_words [] tt).
  - by split.
  - by vm_compute.
  - reflexivity.
Defined.

(** X8 with a TextRank answer of four words, at a limit of 50. *)
Lemma summary_within_limit_unchanged_witness :
  ∃ st',
    summarise_text_rank Scripted.one_sentence (lit "Arsenal is a club.") 4 50 Scripted.start
    = (Ret (strip (join (lit " ") [lit "Arsenal es un club."])), st').
Proof.
  apply (proj2 (summary_within_limit_unchanged Scripted.one_sentence Scripted.no_capability)).
  - by vm_compute.
  - reflexivity.
  - by vm_compute.
Defined.

(** X12 on a request that fails. *)
Lemma skipped_team_costs_one_request_witness :
  ∃ st' line,
    process_team Scripted.offline Scripted.full_capability default_base_url default_delay
      (lit "Arsenal") Scripted.start = (Ret tt, st')
    ∧ trace st' = trace Scripted.start
                  ++ request_of Scripted.offline default_base_url (lit "Arsenal")
                  ++ [print_line line]
    ∧ (∀ quoted, requote_uri Scripted.offline (lit "Arsenal") = Ret quoted →
       trace st' = trace Scripted.start
                   ++ [call_get (search_url default_base_url quoted) 10; print_line line])
    ∧ results st' = results Scripted.start.
Proof.
  apply skipped_team_costs_one_request. by eapply http_failure.
Defined.

(** X14 with the default path. *)
Lemma save_to_csv_writes_once_witness :
  ∃ st' line,
    save_to_csv Scenario.backends [Scenario.arsenal_record] default_path Scripted.start
    = (Ret tt, st')
    ∧ trace st' = trace Scripted.start
                  ++ [ call_makedirs (dirname default_path);
                       call_to_csv default_path [Scenario.arsenal_record];
                       print_line line ].
Proof.
  apply (save_to_csv_writes_once Scenario.backends [Scenario.arsenal_record] default_path
           Scripted.start tt); [done|reflexivity].
Defined.

(** X15 on a bare file name. *)
Lemma save_to_csv_bare_name_makes_empty_path_witness :
  ∃ o st' evs,
    save_to_csv Scenario.backends [Scenario.arsenal_record] (lit "teams_list.csv")
      Scripted.start = (o, st')
    ∧ trace st' = trace Scripted.start ++ call_makedirs [] :: evs.
Proof.
  apply save_to_csv_bare_name_makes_empty_path; [done|].
  apply (bool_decide_unpack _). by vm_compute.
Defined.

(** X16 on the default path, "data/teams_list.csv". *)
Lemma save_to_csv_makes_parent_directory_witness :
  ∃ o st' evs,
    save_to_csv Scenario.backends [Scenario.arsenal_record]
      ((lit "dat" ++ [97%N]) ++ slash :: lit "teams_list.csv") Scripted.start = (o, st')
    ∧ trace st' = trace Scripted.start ++ call_makedirs (lit "dat" ++ [97%N]) :: evs.
Proof.
  apply save_to_csv_makes_parent_directory; [done|done|].
  apply (bool_decide_unpack _). by vm_compute.
Defined.

(** X17 on a name the API does not know, although it knows Arsenal. *)
Lemma main_without_records_touches_no_file_witness :
  ∃ st' evs,
    main Scenario.backends Scripted.full_capability [lit "Nowhere"] Scripted.start
    = (Ret tt, st')
    ∧ trace st' = trace Scripted.start ++ evs
    ∧ only [KPrint; KGet] evs.
Proof.
  apply main_without_records_touches_no_file. by vm_compute.
Defined.

(** X18 on the names of the script, with an API that knows Arsenal. *)
Lemma main_returns_when_directory_is_made_witness :
  ∃ st', main Scenario.backends Scripted.translator_only TEAMS Scripted.start = (Ret tt, st').
Proof.
  apply main_returns_when_directory_is_made. intros w. exists w. reflexivity.
Defined.

(** The script's run on that API: one row is written, for Arsenal. *)
Example main_writes_arsenal :
  of_kind KToCsv
    (trace (main Scenario.backends Scripted.translator_only TEAMS Scripted.start).2)
  = [call_to_csv default_path [Scenario.arsenal_record]]
  ∧ length (of_kind KGet
      (trace (main Scenario.backends Scripted.translator_only TEAMS Scripted.start).2)) = 5%nat.
Proof. split; vm_compute; reflexivity. Qed.

(** A name with a lone surrogate cannot be quoted: no request is sent
    for it, a line is printed, and the next name is processed. *)
Example process_unquotable_name :
  (process_teams Scenario.strict_backends Scripted.translator_only
     [[55296%N]; lit "Arsenal"] default_base_url default_delay Scripted.start).1
  = Ret [Scenario.arsenal_record]
  ∧ of_kind KGet
      (trace (process_teams Scenario.strict_backends Scripted.translator_only
                [[55296%N]; lit "Arsenal"] default_base_url default_delay Scripted.start).2)
    = [call_get (lit "https://www.thesportsdb.com/api/v1/json/123/searchteams.php?t=Arsenal") 10]
  ∧ of_kind KPrint
      (trace (process_teams Scenario.strict_backends Scripted.translator_only
                [[55296%N]; lit "Arsenal"] default_base_url default_delay Scripted.start).2)
    = [print_line (lit "Error processing team '" ++ [55296%N]
                   ++ lit "': surrogates not allowed")].
Proof. repeat split; vm_compute; reflexivity. Qed.
